(** * Random walks with Stable Diffusion: walks, batching and gif export

    A shallow embedding of the guide
    [guides/keras_cv/random_walks_with_stable_diffusion.py].

    - Python integers are [Z]; [//] is floor division and raises
      [ZeroDivisionError] on a zero divisor.
    - Python lists are [list]; a list object that is shared with a caller is
      threaded explicitly, so that in-place updates stay observable.
    - Tensors are flat lists of real numbers: the floating-point arithmetic of
      TensorFlow is idealised as exact arithmetic over [R].
    - The diffusion model ([model.generate_image]), [Image.fromarray] and the
      random stream behind [tf.random.normal] are collaborators of the script;
      they are Section variables. *)

From Stdlib Require Import String List ZArith Reals Lra Lia Bool.
Import ListNotations.

Set Implicit Arguments.

(** ** The fragment of Python the script relies on *)

Module Py.

Inductive exn : Set :=
| IndexError
| ZeroDivisionError
| InvalidArgumentError.

(** A computation either raises or returns. *)
Definition result (A : Type) : Type := (exn + A)%type.

Definition ret {A} (a : A) : result A := inr a.

Definition bind {A B} (m : result A) (k : A -> result B) : result B :=
  match m with
  | inl e => inl e
  | inr a => k a
  end.

(** [a // b] *)
Definition floordiv (a b : Z) : result Z :=
  if (b =? 0)%Z then inl ZeroDivisionError else inr (a / b)%Z.

(** [range(n)] *)
Definition range (n : Z) : list Z := map Z.of_nat (seq 0 (Z.to_nat n)).

(** How a slice bound is brought into [0 .. len]: a negative bound counts
    from the end, and everything is clamped. *)
Definition slice_bound (len i : Z) : Z :=
  if (i <? 0)%Z then Z.max 0 (i + len) else Z.min i len.

(** [l[start:stop]]; a missing bound is [None]. *)
Definition slice {A} (l : list A) (start stop : option Z) : list A :=
  let len := Z.of_nat (length l) in
  let lo := match start with Some i => slice_bound len i | None => 0%Z end in
  let hi := match stop with Some i => slice_bound len i | None => len end in
  firstn (Z.to_nat (hi - lo)) (skipn (Z.to_nat lo) l).

(** [l[::-1]] *)
Definition reversed {A} (l : list A) : list A := rev l.

(** [l[0]] *)
Definition item0 {A} (l : list A) : result A :=
  match l with
  | [] => inl IndexError
  | x :: _ => inr x
  end.

(** A [for] loop whose body may raise: the state is threaded through the
    iterations and the first exception ends the loop. *)
Fixpoint for_each {I S} (xs : list I) (body : I -> S -> result S) (s : S)
  : result S :=
  match xs with
  | [] => inr s
  | x :: xs' =>
      match body x s with
      | inl e => inl e
      | inr s' => for_each xs' body s'
      end
  end.

End Py.

Notation "x <- m ;; k" := (Py.bind m (fun x => k))
  (at level 61, m at next level, right associativity).

(** ** The gif exporter *)

Section Exporter.

Variable Frame : Type.

(** The call [images[0].save(filename, save_all=True, append_images=...,
    duration=..., loop=...)] as the exporter makes it: the image it is called
    on followed by the appended ones, the duration keyword in milliseconds
    and the loop count.  [Image.save] is Pillow's; what it makes of the call
    is not modelled (a GIF stores its delays in whole centiseconds, and a
    negative duration is refused), so a statement about the artifact is
    about a positive rate and about what the writer is asked for. *)
Record gif : Type := {
  gif_filename : string;
  gif_frames : list Frame;
  gif_duration : Z;
  gif_loop : Z
}.

(** [images += images[2:-1][::-1]]: the right-hand side is a fresh list, and
    [+=] on a list extends the list object itself. *)
Definition rubber_band_extend (images : list Frame) : list Frame :=
  images ++ Py.reversed (Py.slice images (Some 2%Z) (Some (-1)%Z)).

(** [export_as_gif(filename, images, frames_per_second, rubber_band)].
    The first component is the content of the list object [images] when the
    call ends: the object is the caller's, so this is what the caller sees
    afterwards.  The second is the exception the exporter raises, or the
    call it makes to the writer.  [images[0]] is evaluated before the
    arguments of [save]. *)
Definition export_as_gif (filename : string) (images : list Frame)
    (frames_per_second : Z) (rubber_band : bool)
  : list Frame * Py.result gif :=
  let images := if rubber_band then rubber_band_extend images else images in
  (images,
   first <- Py.item0 images ;;
   duration <- Py.floordiv 1000 frames_per_second ;;
   Py.ret {| gif_filename := filename;
             gif_frames := first :: Py.slice images (Some 1%Z) None;
             gif_duration := duration;
             gif_loop := 0 |}).

(** The call with the default [frames_per_second=10]. *)
Definition export_as_gif_default (filename : string) (images : list Frame)
    (rubber_band : bool) : list Frame * Py.result gif :=
  export_as_gif filename images 10 rubber_band.

End Exporter.

Arguments gif_filename {Frame}.
Arguments gif_frames {Frame}.
Arguments gif_duration {Frame}.
Arguments gif_loop {Frame}.

(** ** Tensors and the TensorFlow operations the script calls *)

(** A tensor, flattened; the shape plays no role in what follows beyond two
    operands having as many entries. *)
Definition tensor : Type := list R.

Definition zip_with {A B C} (f : A -> B -> C) (a : list A) (b : list B)
  : list C :=
  map (fun p => f (fst p) (snd p)) (combine a b).

(** Entry-wise [a + b], [a - b], [a * c] and [a / c] (the last two with a
    scalar [c]).  The script applies them to tensors of one shape; on lists
    of different lengths the entries are paired up to the shorter one, where
    TensorFlow would broadcast or raise. *)
Definition t_add (a b : tensor) : tensor := zip_with Rplus a b.
Definition t_sub (a b : tensor) : tensor := zip_with Rminus a b.
Definition t_mul (a : tensor) (c : R) : tensor := map (fun x => (x * c)%R) a.
Definition t_div (a : tensor) (c : R) : tensor := map (fun x => (x / c)%R) a.

(** [tf.tensordot(scales, t, axes=0)] for a vector of scalars: the outer
    product, one scaled copy of [t] per scalar. *)
Definition tensordot0 (scales : list R) (t : tensor) : list tensor :=
  map (fun c => map (fun x => (c * x)%R) t) scales.

(** [tf.linspace(start, stop, num)] is TensorFlow's, not this script's.  It is
    modelled on the library's definition: with [n_steps = max(num - 1, 1)] and
    [delta = (stop - start) / n_steps], the result is [start], then
    [start + delta * i] for [i = 1 .. n_steps - 1], then [stop], cut to [num]
    entries (none when [num] is 0); a negative [num] is rejected. *)
Section Linspace.

Variable T : Type.
Variables add sub : T -> T -> T.
Variables mul div : T -> R -> T.

Definition linspace (start stop : T) (num : Z) : Py.result (list T) :=
  if (num <? 0)%Z then inl Py.InvalidArgumentError
  else
    let n_steps := Nat.max (Z.to_nat num - 1) 1 in
    let delta := div (sub stop start) (INR n_steps) in
    let res := map (fun i => add start (mul delta (INR i)))
                   (seq 1 (n_steps - 1)) in
    inr (firstn (Z.to_nat num) (start :: res ++ [stop])).

End Linspace.

(** [tf.linspace] on scalars and on tensors of one shape (ends of
    different lengths are refused here; TensorFlow would broadcast the
    shapes that allow it). *)
Definition tf_linspace : R -> R -> Z -> Py.result (list R) :=
  linspace Rplus Rminus Rmult Rdiv.

Definition tf_linspace_nd (start stop : tensor) (num : Z)
  : Py.result (list tensor) :=
  if (length start =? length stop)%nat
  then linspace t_add t_sub t_mul t_div start stop num
  else inl Py.InvalidArgumentError.

(** [tf.linspace(batch_size*i, batch_size*(i+1) - 1, batch_size)], the indices
    of the vectors of batch [i]. *)
Definition step_offsets (batch_size step_index : Z) : Py.result (list R) :=
  tf_linspace (IZR (batch_size * step_index))
              (IZR (batch_size * (step_index + 1) - 1)) batch_size.

(** [interpolated_encodings = tf.linspace(encoding_1, encoding_2,
    interpolation_steps)] *)
Definition interpolated_encodings (encoding_1 encoding_2 : tensor)
    (interpolation_steps : Z) : Py.result (list tensor) :=
  tf_linspace_nd encoding_1 encoding_2 interpolation_steps.

(** [encoding_step = (encoding_2 - encoding_1) / interpolation_steps] *)
Definition encoding_step (encoding_1 encoding_2 : tensor)
    (interpolation_steps : Z) : tensor :=
  t_div (t_sub encoding_2 encoding_1) (IZR interpolation_steps).

(** The encodings of one batch of the fine-grained interpolation:
    [encoding_1 + tf.tensordot(step_offsets, encoding_step, 0)]. *)
Definition encodings (encoding_1 step : tensor) (batch_size step_index : Z)
  : Py.result (list tensor) :=
  offsets <- step_offsets batch_size step_index ;;
  Py.ret (map (t_add encoding_1) (tensordot0 offsets step)).

(** ** The random stream *)

(** [tf.random.normal(shape, stddev=..., seed=...)] is TensorFlow's.  Its
    seeding contract: with an operation seed the values are a function of the
    seed and of a counter that the kernel advances on every call, the same in
    every run of the program; without one a seed is picked at random, so the
    values belong to the run.  The draw is the standard normal sample times
    [stddev] (plus the mean, 0). *)
Record tf_rng : Type := {
  seeded_calls : nat;
  unseeded_calls : nat
}.

Section RandomNormal.

(** The kernel with an operation seed: seed, counter, shape. *)
Variable standard_normal : Z -> nat -> list Z -> tensor.
(** What the run's randomly picked seeds produce: call number, shape. *)
Variable entropy : nat -> list Z -> tensor.

Definition tf_random_normal (shape : list Z) (stddev : R) (seed : option Z)
    (g : tf_rng) : tensor * tf_rng :=
  match seed with
  | Some s =>
      (t_mul (standard_normal s (seeded_calls g) shape) stddev,
       {| seeded_calls := S (seeded_calls g);
          unseeded_calls := unseeded_calls g |})
  | None =>
      (t_mul (entropy (unseeded_calls g) shape) stddev,
       {| seeded_calls := seeded_calls g;
          unseeded_calls := S (unseeded_calls g) |})
  end.

End RandomNormal.

(** ** Tensor objects *)

(** Tensors are objects: a list such as [batch_encodings] holds references,
    and a reference is a position in the store.  A TensorFlow tensor is
    immutable and has no in-place addition, so Python runs
    [encoding += random_deltas] as [encoding = encoding + random_deltas]: the
    sum is a new object and the name is rebound to it.  (Were [encoding] a
    NumPy array, its in-place addition would defer to the tensor on the
    right, which has the higher array priority, and the sum would be a new
    tensor all the same.) *)
Definition store : Type := list tensor.

Definition alloc (h : store) (t : tensor) : nat * store :=
  (length h, h ++ [t]).

Definition deref (h : store) (r : nat) : tensor := nth r h [].

(** [tf.stack(refs)] reads every referenced tensor. *)
Definition tf_stack (h : store) (refs : list nat) : list tensor :=
  map (deref h) refs.

(** ** The three sampling loops *)

Section Sampling.

Variables Img Frame : Type.

(** [model.generate_image(encoded_text, batch_size=..., num_steps=...,
    diffusion_noise=...)]: the encodings (a batch, or one encoding as a
    singleton), the batch size, the number of diffusion steps and the noise
    (one tensor as a singleton, or a batch). *)
Variable generate_image : list tensor -> Z -> Z -> list tensor -> list Img.

(** [Image.fromarray] *)
Variable fromarray : Img -> Frame.

(** The random stream: the seeded kernel, and what this run draws when no
    seed is given. *)
Variable standard_normal : Z -> nat -> list Z -> tensor.
Variable entropy : nat -> list Z -> tensor.

(** The list [images] the loops extend, together with the record of what
    was handed to the model, one entry per call: the batch of encodings of
    the text-encoding walks, the batch of noise of the circular walk. *)
Record sampler : Type := {
  batches : list (list tensor);
  images : list Frame
}.

Definition no_images : sampler := {| batches := []; images := [] |}.

(** [images += [Image.fromarray(img) for img in model.generate_image(...)]] *)
Definition sample (s : sampler) (batch : list tensor) (imgs : list Img)
  : sampler :=
  {| batches := batches s ++ [batch];
     images := images s ++ map fromarray imgs |}.

(** Lines 135-153: the fine-grained interpolation. *)
Definition interpolation_loop (encoding_1 encoding_2 : tensor)
    (interpolation_steps batch_size : Z) (noise : tensor)
  : Py.result sampler :=
  let step := encoding_step encoding_1 encoding_2 interpolation_steps in
  n <- Py.floordiv interpolation_steps batch_size ;;
  Py.for_each (Py.range n)
    (fun step_index s =>
       batch <- encodings encoding_1 step batch_size step_index ;;
       Py.ret (sample s batch (generate_image batch batch_size 25 [noise])))
    no_images.

(** The state of the random walk: the tensor objects, the object the name
    [encoding] is bound to, the random stream and the images so far. *)
Record walker : Type := {
  heap : store;
  encoding : nat;
  rng : tf_rng;
  sampled : sampler
}.

(** One turn of the inner loop (lines 179-182): the reference is appended,
    a delta is drawn, and [encoding] is rebound to the sum. *)
Definition walk_step (step_size : R) (seed : Z)
    (st : walker * list nat) : walker * list nat :=
  let (w, batch_encodings) := st in
  let batch_encodings := batch_encodings ++ [encoding w] in
  let (random_deltas, g) :=
    tf_random_normal standard_normal entropy
                     [77%Z; 768%Z] step_size (Some seed) (rng w) in
  let (r, h) := alloc (heap w) (t_add (deref (heap w) (encoding w))
                                      random_deltas) in
  ({| heap := h; encoding := r; rng := g; sampled := sampled w |},
   batch_encodings).

(** One turn of the outer loop (lines 177-189). *)
Definition walk_batch (batch_size : Z) (step_size : R) (seed : Z)
    (noise : tensor) (w : walker) : walker :=
  let (w', batch_encodings) :=
    fold_left (fun st _ => walk_step step_size seed st)
              (Py.range batch_size) (w, []) in
  let batch := tf_stack (heap w') batch_encodings in
  {| heap := heap w'; encoding := encoding w'; rng := rng w';
     sampled := sample (sampled w') batch
                       (generate_image batch batch_size 25 [noise]) |}.

(** Lines 169-189: the random walk around a text prompt. *)
Definition random_walk_loop (walk_steps batch_size : Z) (step_size : R)
    (seed : Z) (noise : tensor) (w : walker) : Py.result walker :=
  n <- Py.floordiv walk_steps batch_size ;;
  Py.ret (fold_left (fun w _ => walk_batch batch_size step_size seed noise w)
                    (Py.range n) w).

(** Lines 222-234: the walk through the diffusion noise, from the two base
    tensors. *)
Definition circular_loop (prompt_encoding walk_noise_x walk_noise_y : tensor)
    (walk_steps batch_size : Z) : Py.result sampler :=
  n <- Py.floordiv walk_steps batch_size ;;
  Py.for_each (Py.range n)
    (fun step s =>
       offsets_x <- step_offsets batch_size step ;;
       let walk_scale_x :=
         map (fun o => cos (o * 2 * PI / IZR walk_steps)) offsets_x in
       offsets_y <- step_offsets batch_size step ;;
       let walk_scale_y :=
         map (fun o => sin (o * 2 * PI / IZR walk_steps)) offsets_y in
       let noise_x := tensordot0 walk_scale_x walk_noise_x in
       let noise_y := tensordot0 walk_scale_y walk_noise_y in
       let noise := zip_with t_add noise_x noise_y in
       Py.ret (sample s noise
                 (generate_image [prompt_encoding] batch_size 25 noise)))
    no_images.

(** Lines 219-234: the two base tensors are drawn, with no seed argument,
    and the loop runs on them. *)
Definition circular_walk (g : tf_rng)
    (noise_shape : list Z) (prompt_encoding : tensor)
    (walk_steps batch_size : Z) : Py.result sampler :=
  let (walk_noise_x, g1) :=
    tf_random_normal standard_normal entropy noise_shape 1 None g in
  let (walk_noise_y, _) :=
    tf_random_normal standard_normal entropy noise_shape 1 None g1 in
  circular_loop prompt_encoding walk_noise_x walk_noise_y
                walk_steps batch_size.

End Sampling.

(** Observers of a run of a sampling loop: the sizes of the batches handed to
    the model, and the number of images collected. *)
Definition chunk_sizes {Frame} (r : Py.result (sampler Frame))
  : Py.result (list nat) :=
  s <- r ;; Py.ret (map (@length tensor) (batches s)).

Definition frame_count {Frame} (r : Py.result (sampler Frame))
  : Py.result nat :=
  s <- r ;; Py.ret (length (images s)).

(** ** The walks in closed form *)

(** The [i]-th vector of the fine-grained interpolation:
    [encoding_1 + i * encoding_step]. *)
Definition fine_vector (encoding_1 encoding_2 : tensor)
    (interpolation_steps : Z) (i : nat) : tensor :=
  t_add encoding_1
        (map (fun x => (INR i * x)%R)
             (encoding_step encoding_1 encoding_2 interpolation_steps)).

(** The point at parameter [t] on the segment from [a] to [b]. *)
Definition lerp (a b : tensor) (t : R) : tensor :=
  zip_with (fun x y => (x + t * (y - x))%R) a b.

(** The delta of the random walk that the seeded kernel yields at counter
    [c]. *)
Definition random_deltas (standard_normal : Z -> nat -> list Z -> tensor)
    (step_size : R) (seed : Z) (c : nat) : tensor :=
  t_mul (standard_normal seed c [77%Z; 768%Z]) step_size.

(** The random walk as a fold: [k] positions from [v], each the one before
    plus the next delta. *)
Fixpoint walk_from (delta : nat -> tensor) (v : tensor) (c k : nat)
  : list tensor :=
  match k with
  | O => []
  | S k' => v :: walk_from delta (t_add v (delta c)) (S c) k'
  end.

(** The position reached from [v] after [k] deltas. *)
Fixpoint position (delta : nat -> tensor) (v : tensor) (c k : nat) : tensor :=
  match k with
  | O => v
  | S k' => position delta (t_add v (delta c)) (S c) k'
  end.

(** The batch of index [i] when the vectors [f 0], [f 1], ... are taken [b]
    at a time. *)
Definition chunk {A} (f : nat -> A) (b i : nat) : list A :=
  map (fun k => f (b * i + k)%nat) (seq 0 b).

(** [cos(2 pi i / steps) * noiseX + sin(2 pi i / steps) * noiseY] *)
Definition circular_vector (noise_x noise_y : tensor) (walk_steps : Z)
    (i : nat) : tensor :=
  t_add (map (fun x => (cos (2 * PI * INR i / IZR walk_steps) * x)%R) noise_x)
        (map (fun x => (sin (2 * PI * INR i / IZR walk_steps) * x)%R) noise_y).

(** ** Stand-ins for the collaborators *)

(** A model that returns its encodings, or its noise, as the images; with it
    the loops can be run and what they hand the model read off the result. *)
Definition echo_encodings (encoded_text : list tensor) (_ _ : Z)
    (_ : list tensor) : list tensor := encoded_text.

Definition echo_noise (_ : list tensor) (_ _ : Z)
    (diffusion_noise : list tensor) : list tensor := diffusion_noise.

Definition as_is (t : tensor) : tensor := t.

(** A kernel whose every draw is the one-entry tensor [[1]], and runs whose
    unseeded draws are all [[0]], or all [[1]]. *)
Definition ones_kernel (_ : Z) (_ : nat) (_ : list Z) : tensor := [1%R].
Definition zeros_run (_ : nat) (_ : list Z) : tensor := [0%R].
Definition ones_run (_ : nat) (_ : list Z) : tensor := [1%R].

(** The start of a run: no draw made yet. *)
Definition fresh_rng : tf_rng := {| seeded_calls := 0; unseeded_calls := 0 |}.

(** The random walk about to start from the one tensor object [start]. *)
Definition walker_at (Frame : Type) (start : tensor) : walker Frame :=
  {| heap := [start]; encoding := 0; rng := fresh_rng;
     sampled := no_images Frame |}.

(** ** The four sections of the script, from walk to gif *)

Section Script.

Variables Img Frame : Type.
Variable generate_image : list tensor -> Z -> Z -> list tensor -> list Img.
Variable fromarray : Img -> Frame.
Variable standard_normal : Z -> nat -> list Z -> tensor.
Variable entropy : nat -> list Z -> tensor.


(** What a section that exports the list [images] of its loop leaves: the
    list as the exporter left it, and the artifact. *)
Definition export_images (filename : string) (rubber_band : bool)
    (s : sampler Frame) : Py.result (list Frame * gif Frame) :=
  let (images, saved) :=
    export_as_gif_default filename (images s) rubber_band in
  g <- saved ;; Py.ret (images, g).

(** Lines 135-155 *)
Definition fine_interpolation_gif (encoding_1 encoding_2 : tensor)
    (interpolation_steps batch_size : Z) (noise : tensor)
  : Py.result (list Frame * gif Frame) :=
  s <- interpolation_loop generate_image fromarray encoding_1 encoding_2
                          interpolation_steps batch_size noise ;;
  export_images "doggo-and-fruit-160.gif" true s.

(** Lines 169-191 *)
Definition random_walk_gif (walk_steps batch_size : Z) (step_size : R)
    (seed : Z) (noise : tensor) (w : walker Frame)
  : Py.result (list Frame * gif Frame) :=
  w' <- random_walk_loop generate_image fromarray standard_normal entropy
                         walk_steps batch_size step_size seed noise w ;;
  export_images "ducky.gif" true (sampled w').

(** Lines 214-236: the circular walk is exported without the rubber band. *)
Definition circular_walk_gif (g : tf_rng) (noise_shape : list Z)
    (prompt_encoding : tensor) (walk_steps batch_size : Z)
  : Py.result (list Frame * gif Frame) :=
  s <- circular_walk generate_image fromarray standard_normal entropy g
                     noise_shape prompt_encoding walk_steps batch_size ;;
  export_images "cows.gif" false s.

End Script.

(** * Properties *)

Local Open Scope string_scope.

(** ** Slices *)

Lemma slice_tail {A} (x : A) (l : list A) :
  Py.slice (x :: l) (Some 1%Z) None = l.
Proof.
  unfold Py.slice, Py.slice_bound.
  change (1 <? 0)%Z with false. cbv iota.
  change (length (x :: l)) with (S (length l)).
  replace (Z.min 1 (Z.of_nat (S (length l)))) with 1%Z by lia.
  replace (Z.to_nat (Z.of_nat (S (length l)) - 1)) with (length l) by lia.
  change (skipn (Z.to_nat 1) (x :: l)) with l.
  apply firstn_all.
Qed.

Lemma slice_interior_length {A} (l : list A) :
  length (Py.slice l (Some 2%Z) (Some (-1)%Z)) = (length l - 3)%nat.
Proof.
  unfold Py.slice, Py.slice_bound.
  rewrite length_firstn, length_skipn.
  change (-1 <? 0)%Z with true. change (2 <? 0)%Z with false.
  cbv iota. lia.
Qed.

Lemma slice_interior_short {A} (l : list A) :
  (length l <= 3)%nat -> Py.slice l (Some 2%Z) (Some (-1)%Z) = [].
Proof.
  intros H. apply length_zero_iff_nil. rewrite slice_interior_length. lia.
Qed.

(** ** The exporter *)

Section ExporterFacts.

Variable Frame : Type.
Implicit Types images : list Frame.

Lemma rubber_band_extend_length images :
  length (rubber_band_extend images)
  = (length images + (length images - 3))%nat.
Proof.
  unfold rubber_band_extend, Py.reversed.
  now rewrite length_app, length_rev, slice_interior_length.
Qed.

Lemma rubber_band_extend_short images :
  (length images <= 3)%nat -> rubber_band_extend images = images.
Proof.
  intros H. unfold rubber_band_extend.
  rewrite slice_interior_short by exact H. apply app_nil_r.
Qed.

(** On a sequence that is not empty and a rate that is not zero the
    exporter reaches the writer, and hands it every image of the list as it
    stands after the rubber band, [1000 // frames_per_second] per frame,
    looping for ever. *)
Lemma export_as_gif_saved filename images fps rubber_band :
  images <> [] -> fps <> 0%Z ->
  export_as_gif filename images fps rubber_band
  = (if rubber_band then rubber_band_extend images else images,
     inr {| gif_filename := filename;
            gif_frames :=
              if rubber_band then rubber_band_extend images else images;
            gif_duration := (1000 / fps)%Z;
            gif_loop := 0 |}).
Proof.
  intros Hne Hfps. unfold export_as_gif.
  set (l := if rubber_band then rubber_band_extend images else images).
  assert (Hl : l <> []).
  { subst l. destruct rubber_band; [|exact Hne].
    unfold rubber_band_extend. intros E.
    apply app_eq_nil in E. tauto. }
  destruct l as [|x l']; [congruence|].
  cbn [Py.item0 Py.bind]. unfold Py.floordiv.
  destruct (Z.eqb_spec fps 0); [contradiction|].
  cbn [Py.bind Py.ret]. now rewrite slice_tail.
Qed.

(** C7. Exporting an empty frame sequence fails, whatever the rate (zero
    included: [images[0]] is evaluated before the duration) and with or
    without the rubber band: indexing the empty list raises [IndexError],
    Python's form of the invalid-argument failure, and nothing is
    written. *)
Theorem export_empty_fails filename fps rubber_band :
  export_as_gif filename (@nil Frame) fps rubber_band
  = ([], inl Py.IndexError).
Proof. destruct rubber_band; reflexivity. Qed.

(** C10. With the rubber band, a sequence of one or two frames is exported
    as it is: nothing is appended, the exporter raises nothing (at a rate
    that is not zero), and the frames handed to the writer are the input
    frames in their order. *)
Theorem export_short_rubber_band filename images fps :
  (length images = 1 \/ length images = 2)%nat -> fps <> 0%Z ->
  export_as_gif filename images fps true
  = (images,
     inr {| gif_filename := filename; gif_frames := images;
            gif_duration := (1000 / fps)%Z; gif_loop := 0 |}).
Proof.
  intros Hlen Hfps.
  assert (Hne : images <> []) by (destruct images; cbn in Hlen; [lia|easy]).
  rewrite (export_as_gif_saved filename true Hne Hfps).
  now rewrite rubber_band_extend_short by lia.
Qed.

(** C6, as amended. On a sequence that is not empty and at a positive
    rate, the duration the exporter asks the writer for, per frame, is
    [1000 // frames_per_second] milliseconds: the quotient rounded down, the
    largest whole [d] with [d * rate <= 1000]; that is exactly
    [1000 / rate] when the rate divides 1000. *)
Theorem export_duration_floor filename images fps rubber_band :
  images <> [] -> (0 < fps)%Z ->
  exists g,
    snd (export_as_gif filename images fps rubber_band) = inr g
    /\ gif_duration g = (1000 / fps)%Z
    /\ (fps * gif_duration g <= 1000 < fps * (gif_duration g + 1))%Z
    /\ ((fps | 1000)%Z -> (IZR (gif_duration g) = 1000 / IZR fps)%R).
Proof.
  intros Hne Hpos. assert (Hfps : fps <> 0%Z) by lia.
  rewrite (export_as_gif_saved filename rubber_band Hne Hfps).
  eexists. split; [reflexivity|]. cbn [gif_duration].
  split; [reflexivity|]. split.
  - pose proof (Z.mul_div_le 1000 fps Hpos).
    pose proof (Z.mul_succ_div_gt 1000 fps Hpos). lia.
  - intros [q Hq].
    assert (Hd : (1000 / fps = q)%Z) by (rewrite Hq; now apply Z.div_mul).
    rewrite Hd.
    assert (HR : IZR 1000 = (IZR q * IZR fps)%R)
      by (rewrite <- mult_IZR; now f_equal).
    assert (Hf : IZR fps <> 0%R) by now apply not_0_IZR.
    rewrite HR. field. exact Hf.
Qed.

End ExporterFacts.

(** The duration at 3 frames per second. *)
Lemma export_duration_floor_witness :
  ["A"; "B"] <> [] /\ (0 < 3)%Z
  /\ exists g,
    snd (export_as_gif "walk.gif" ["A"; "B"] 3 false) = inr g
    /\ gif_duration g = (1000 / 3)%Z
    /\ (3 * gif_duration g <= 1000 < 3 * (gif_duration g + 1))%Z
    /\ ((3 | 1000)%Z -> (IZR (gif_duration g) = 1000 / IZR 3)%R).
Proof.
  split; [discriminate|]. split; [lia|].
  apply (@export_duration_floor string "walk.gif" ["A"; "B"] 3%Z false).
  - discriminate.
  - lia.
Defined.

(** Two frames, with the rubber band, at the default rate. *)
Lemma export_short_rubber_band_witness :
  (length ["A"; "B"] = 1 \/ length ["A"; "B"] = 2)%nat /\ 10%Z <> 0%Z
  /\ export_as_gif "walk.gif" ["A"; "B"] 10 true
  = (["A"; "B"],
     inr {| gif_filename := "walk.gif"; gif_frames := ["A"; "B"];
            gif_duration := (1000 / 10)%Z; gif_loop := 0 |}).
Proof.
  split; [right; reflexivity|]. split; [lia|].
  apply (@export_short_rubber_band string "walk.gif" ["A"; "B"] 10%Z).
  - right. reflexivity.
  - lia.
Defined.

(** C6, as the claim has it, fails at 3 frames per second: the duration
    asked for is 333 milliseconds per frame, which is not 1000 / 3. *)
Lemma export_duration_not_exact :
  snd (export_as_gif "walk.gif" ["A"; "B"] 3 false)
  = inr {| gif_filename := "walk.gif"; gif_frames := ["A"; "B"];
           gif_duration := 333; gif_loop := 0 |}
  /\ ~ (forall g,
          snd (export_as_gif "walk.gif" ["A"; "B"] 3 false) = inr g ->
          (IZR (gif_duration g) = 1000 / 3)%R).
Proof.
  split; [reflexivity|].
  intros H.
  specialize (H {| gif_filename := "walk.gif"; gif_frames := ["A"; "B"];
                   gif_duration := 333; gif_loop := 0 |} eq_refl).
  cbn [gif_duration] in H. lra.
Qed.

(** C1, on the code. With the rubber band, [A, B, C, D] is exported as
    [A, B, C, D, C]: the slice [images[2:-1]] starts one frame late, so the
    frame after the first is not played on the way back, and a sequence of
    [N >= 3] frames grows by [N - 3] frames, not by [N - 2]. *)
Theorem export_rubber_band_abcd :
  export_as_gif_default "walk.gif" ["A"; "B"; "C"; "D"] true
  = (["A"; "B"; "C"; "D"; "C"],
     inr {| gif_filename := "walk.gif";
            gif_frames := ["A"; "B"; "C"; "D"; "C"];
            gif_duration := 100; gif_loop := 0 |})
  /\ forall images : list string,
       length (rubber_band_extend images)
       = (length images + (length images - 3))%nat.
Proof.
  split; [reflexivity|]. apply rubber_band_extend_length.
Qed.

(** C9, on the code. The rubber band is applied with [+=] to the list object
    the caller passed: after the call the caller's [A, B, C, D] reads
    [A, B, C, D, C].  In general the caller's list ends as the input followed
    by the reversed slice, and is as it was only without the rubber band. *)
Theorem export_extends_callers_list :
  fst (export_as_gif_default "walk.gif" ["A"; "B"; "C"; "D"] true)
  = ["A"; "B"; "C"; "D"; "C"]
  /\ (forall filename (images : list string) fps,
        fst (export_as_gif filename images fps true)
        = (images ++ rev (Py.slice images (Some 2%Z) (Some (-1)%Z)))%list)
  /\ (forall filename (images : list string) fps,
        fst (export_as_gif filename images fps false) = images).
Proof.
  repeat split.
Qed.

Local Close Scope string_scope.

(** ** Lists of indices *)

Lemma seq_from (s len : nat) :
  seq s len = map (fun k => (s + k)%nat) (seq 0 len).
Proof.
  revert s. induction len as [|len IH]; intros s; [reflexivity|].
  cbn [seq map]. rewrite Nat.add_0_r. f_equal.
  rewrite (IH (S s)), (IH 1%nat), map_map.
  apply map_ext. intros k. lia.
Qed.

(** Batches of [b] consecutive indices, one after the other, are the indices
    in order. *)
Lemma concat_chunks {A} (f : nat -> A) (b n : nat) :
  concat (map (chunk f b) (seq 0 n)) = map f (seq 0 (b * n)).
Proof.
  unfold chunk.
  induction n as [|n IH]; [now rewrite Nat.mul_0_r|].
  rewrite seq_S, map_app, concat_app, IH. cbn [map concat Nat.add].
  rewrite app_nil_r.
  replace (b * S n)%nat with (b * n + b)%nat by lia.
  rewrite seq_app, map_app. f_equal.
  cbn [Nat.add]. now rewrite (seq_from (b * n) b), map_map.
Qed.

Lemma zip_with_map_same {A B C D} (f : B -> C -> D) (g : A -> B) (h : A -> C)
    (l : list A) :
  zip_with f (map g l) (map h l) = map (fun x => f (g x) (h x)) l.
Proof.
  unfold zip_with. induction l as [|x l IH]; [reflexivity|].
  cbn [map combine fst snd]. now rewrite IH.
Qed.

(** ** [tf.linspace] *)

Section LinspaceFacts.

Variable T : Type.
Variables add sub : T -> T -> T.
Variables mul div : T -> R -> T.

Lemma linspace_one start stop :
  linspace add sub mul div start stop 1 = inr [start].
Proof. reflexivity. Qed.

Lemma linspace_many start stop (m : nat) :
  linspace add sub mul div start stop (Z.of_nat (S (S m)))
  = inr (start
         :: map (fun i => add start
                            (mul (div (sub stop start) (INR (S m))) (INR i)))
                (seq 1 m)
         ++ [stop]).
Proof.
  unfold linspace.
  destruct (Z.ltb_spec (Z.of_nat (S (S m))) 0) as [H|_]; [lia|].
  rewrite Nat2Z.id.
  replace (Nat.max (S (S m) - 1) 1) with (S m) by lia.
  replace (S m - 1)%nat with m by lia.
  f_equal. apply firstn_all2.
  cbn [length]. rewrite length_app, length_map, length_seq. cbn. lia.
Qed.

End LinspaceFacts.

(** The offsets of batch [i] are the indices [b*i], ..., [b*i + b - 1]. *)
Lemma tf_linspace_unit (a : R) (n : nat) :
  (0 < n)%nat ->
  tf_linspace a (a + INR (n - 1)) (Z.of_nat n)
  = inr (map (fun k => (a + INR k)%R) (seq 0 n)).
Proof.
  intros Hn. unfold tf_linspace.
  destruct n as [|[|m]]; [lia| |].
  - change (Z.of_nat 1) with 1%Z. rewrite linspace_one.
    cbn [seq map INR]. do 2 f_equal. lra.
  - rewrite linspace_many.
    replace (S (S m) - 1)%nat with (S m) by lia.
    change (seq 0 (S (S m))) with (0%nat :: seq 1 (S m)).
    rewrite (seq_S m 1), map_cons, map_app. cbn [map Nat.add].
    assert (Hm : INR (S m) <> 0%R) by (apply not_0_INR; lia).
    f_equal. f_equal.
    + cbn [INR]. lra.
    + f_equal.
      * apply map_ext. intros i. field. exact Hm.
Qed.

Lemma step_offsets_eq (batch_size : Z) (i : nat) :
  (0 < batch_size)%Z ->
  step_offsets batch_size (Z.of_nat i)
  = inr (map (fun k => INR (Z.to_nat batch_size * i + k))
             (seq 0 (Z.to_nat batch_size))).
Proof.
  intros Hb. unfold step_offsets.
  set (n := Z.to_nat batch_size).
  assert (Hbn : batch_size = Z.of_nat n) by (subst n; lia).
  assert (Hn : (0 < n)%nat) by lia.
  assert (Hstop : IZR (batch_size * (Z.of_nat i + 1) - 1)
                  = (IZR (batch_size * Z.of_nat i) + INR (n - 1))%R).
  { rewrite INR_IZR_INZ, <- plus_IZR. f_equal. lia. }
  rewrite Hstop. rewrite Hbn at 3.
  rewrite (tf_linspace_unit _ Hn). f_equal.
  apply map_ext. intros k.
  rewrite plus_INR, mult_INR, mult_IZR, !INR_IZR_INZ. now rewrite <- Hbn.
Qed.

(** ** The sampling loops *)

Section SamplingFacts.

Variables Img Frame : Type.
Variable generate_image : list tensor -> Z -> Z -> list tensor -> list Img.
Variable fromarray : Img -> Frame.

(** A loop whose every turn hands one batch to the model collects the
    batches, and the images of each, in the order of the turns. *)
Lemma for_each_sample {I} (xs : list I)
    (body : I -> sampler Frame -> Py.result (sampler Frame))
    (B : I -> list tensor) (G : I -> list Img) (s0 : sampler Frame) :
  (forall idx s,
      In idx xs -> body idx s = inr (sample fromarray s (B idx) (G idx))) ->
  Py.for_each xs body s0
  = inr {| batches := batches s0 ++ map B xs;
           images := images s0
                     ++ flat_map (fun i => map fromarray (G i)) xs |}.
Proof.
  revert s0. induction xs as [|x xs IH]; intros s0 Hbody.
  - cbn. destruct s0. cbn. now rewrite !app_nil_r.
  - cbn [Py.for_each]. rewrite (Hbody x s0) by now left.
    rewrite IH by (intros; apply Hbody; now right).
    unfold sample. cbn [batches images map flat_map].
    now rewrite <- !app_assoc.
Qed.

Lemma encodings_eq (encoding_1 step : tensor) (batch_size : Z) (i : nat) :
  (0 < batch_size)%Z ->
  encodings encoding_1 step batch_size (Z.of_nat i)
  = inr (map (fun k =>
                t_add encoding_1
                      (map (fun x => (INR (Z.to_nat batch_size * i + k) * x)%R)
                           step))
             (seq 0 (Z.to_nat batch_size))).
Proof.
  intros Hb. unfold encodings. rewrite (step_offsets_eq i Hb).
  cbn [Py.bind Py.ret]. unfold tensordot0. now rewrite !map_map.
Qed.

Lemma interpolation_loop_run e1 e2 (steps batch_size : Z) noise :
  (0 < batch_size)%Z ->
  interpolation_loop generate_image fromarray e1 e2 steps batch_size noise
  = inr {| batches :=
             map (chunk (fine_vector e1 e2 steps) (Z.to_nat batch_size))
                 (seq 0 (Z.to_nat (steps / batch_size)));
           images :=
             flat_map
               (fun i => map fromarray
                           (generate_image
                              (chunk (fine_vector e1 e2 steps)
                                     (Z.to_nat batch_size) i)
                              batch_size 25 [noise]))
               (seq 0 (Z.to_nat (steps / batch_size))) |}.
Proof.
  intros Hb. unfold interpolation_loop, Py.floordiv.
  destruct (Z.eqb_spec batch_size 0) as [E|_]; [lia|].
  cbn [Py.bind]. unfold Py.range.
  rewrite (for_each_sample _ _
             (fun idx => chunk (fine_vector e1 e2 steps)
                               (Z.to_nat batch_size) (Z.to_nat idx))
             (fun idx => generate_image
                           (chunk (fine_vector e1 e2 steps)
                                  (Z.to_nat batch_size) (Z.to_nat idx))
                           batch_size 25 [noise])).
  - cbn [no_images batches images app]. f_equal. f_equal.
    + rewrite map_map. apply map_ext. intros i. now rewrite Nat2Z.id.
    + rewrite flat_map_concat_map, map_map, <- flat_map_concat_map.
      apply flat_map_ext. intros i. now rewrite Nat2Z.id.
  - intros idx s Hin. apply in_map_iff in Hin as [i [<- _]].
    rewrite (encodings_eq _ _ i Hb). cbn [Py.bind Py.ret].
    rewrite Nat2Z.id. reflexivity.
Qed.

End SamplingFacts.

(** ** The random walk *)

Lemma walk_from_length delta v c k : length (walk_from delta v c k) = k.
Proof.
  revert v c. induction k as [|k IH]; intros v c; [reflexivity|].
  cbn. now rewrite IH.
Qed.

Lemma walk_from_app delta v c a b :
  walk_from delta v c (a + b)
  = walk_from delta v c a
    ++ walk_from delta (position delta v c a) (c + a) b.
Proof.
  revert v c. induction a as [|a IH]; intros v c.
  - cbn. now rewrite Nat.add_0_r.
  - cbn [Nat.add walk_from position app]. rewrite IH.
    now replace (S c + a)%nat with (c + S a)%nat by lia.
Qed.

Lemma position_add delta v c a b :
  position delta v c (a + b)
  = position delta (position delta v c a) (c + a) b.
Proof.
  revert v c. induction a as [|a IH]; intros v c.
  - cbn. now rewrite Nat.add_0_r.
  - cbn [Nat.add position]. rewrite IH.
    now replace (S c + a)%nat with (c + S a)%nat by lia.
Qed.

(** The walk starts at [v], and every later entry is the entry before it
    plus the delta drawn at that step. *)
Lemma walk_from_head delta v c k :
  (0 < k)%nat -> nth_error (walk_from delta v c k) 0 = Some v.
Proof. destruct k; [lia|reflexivity]. Qed.

Lemma walk_from_succ delta v c k i :
  (S i < k)%nat ->
  exists p,
    nth_error (walk_from delta v c k) i = Some p
    /\ nth_error (walk_from delta v c k) (S i)
       = Some (t_add p (delta (c + i)%nat)).
Proof.
  revert v c k. induction i as [|i IH]; intros v c k Hk.
  - destruct k as [|[|k]]; try lia.
    exists v. cbn. now rewrite Nat.add_0_r.
  - destruct k as [|k]; [lia|].
    destruct (IH (t_add v (delta c)) (S c) k) as [p [H1 H2]]; [lia|].
    exists p. split; [exact H1|].
    change (nth_error (walk_from delta v c (S k)) (S (S i)))
      with (nth_error (walk_from delta (t_add v (delta c)) (S c) k) (S i)).
    rewrite H2. now replace (S c + i)%nat with (c + S i)%nat by lia.
Qed.

Section RandomWalkFacts.

Variables Img Frame : Type.
Variable generate_image : list tensor -> Z -> Z -> list tensor -> list Img.
Variable fromarray : Img -> Frame.
Variable standard_normal : Z -> nat -> list Z -> tensor.
Variable entropy : nat -> list Z -> tensor.
Variable step_size : R.
Variable seed : Z.
Variable noise : tensor.

Let delta : nat -> tensor := random_deltas standard_normal step_size seed.
Let step := walk_step (Frame := Frame) standard_normal entropy step_size seed.

Lemma walk_step_eq (w : walker Frame) (acc : list nat) :
  step (w, acc)
  = ({| heap := heap w
                ++ [t_add (deref (heap w) (encoding w))
                          (delta (seeded_calls (rng w)))];
        encoding := length (heap w);
        rng := {| seeded_calls := S (seeded_calls (rng w));
                  unseeded_calls := unseeded_calls (rng w) |};
        sampled := sampled w |},
     acc ++ [encoding w]).
Proof. reflexivity. Qed.

Lemma tf_stack_app_store (h news : store) (refs : list nat) :
  Forall (fun r => (r < length h)%nat) refs ->
  tf_stack (h ++ news) refs = tf_stack h refs.
Proof.
  intros H. unfold tf_stack. apply map_ext_in. intros r Hr.
  rewrite Forall_forall in H. unfold deref. now apply app_nth1, H.
Qed.

(** The inner loop, whatever the list it iterates over: the store only
    grows, the references collected so far keep their values, and
    [tf.stack] reads the positions of the walk in order. *)
Lemma walk_steps_spec (l : list Z) :
  forall (w : walker Frame) (acc : list nat),
    (encoding w < length (heap w))%nat ->
    Forall (fun r => (r < length (heap w))%nat) acc ->
    NoDup (acc ++ [encoding w]) ->
    let st := fold_left (fun st _ => step st) l (w, acc) in
    let v := deref (heap w) (encoding w) in
    let c := seeded_calls (rng w) in
    (exists news, heap (fst st) = heap w ++ news /\ length news = length l)
    /\ (encoding (fst st) < length (heap (fst st)))%nat
    /\ deref (heap (fst st)) (encoding (fst st))
       = position delta v c (length l)
    /\ rng (fst st) = {| seeded_calls := c + length l;
                         unseeded_calls := unseeded_calls (rng w) |}
    /\ sampled (fst st) = sampled w
    /\ tf_stack (heap (fst st)) (snd st)
       = tf_stack (heap w) acc ++ walk_from delta v c (length l)
    /\ Forall (fun r => (r < length (heap (fst st)))%nat) (snd st)
    /\ NoDup (snd st ++ [encoding (fst st)]).
Proof.
  induction l as [|x l IH]; intros w acc Henc Hacc Hnd; cbn zeta.
  - cbn [fold_left fst snd length position walk_from].
    repeat split; try assumption.
    + exists []. now rewrite app_nil_r.
    + destruct (rng w). cbn. f_equal. lia.
    + now rewrite app_nil_r.
  - cbn [fold_left]. rewrite walk_step_eq.
    set (v := deref (heap w) (encoding w)).
    set (c := seeded_calls (rng w)).
    set (w1 := {| heap := heap w ++ [t_add v (delta c)];
                  encoding := length (heap w);
                  rng := {| seeded_calls := S c;
                            unseeded_calls := unseeded_calls (rng w) |};
                  sampled := sampled w |}).
    assert (Hacc1 : Forall (fun r => (r < length (heap w1))%nat)
                           (acc ++ [encoding w])).
    { cbn [heap w1]. rewrite length_app. cbn [length].
      apply Forall_app. split.
      - eapply Forall_impl; [|exact Hacc]. cbn. intros; lia.
      - constructor; [lia|constructor]. }
    assert (Hnd1 : NoDup ((acc ++ [encoding w]) ++ [encoding w1])).
    { apply NoDup_app; [exact Hnd|repeat constructor; easy|].
      intros a Ha [<-|[]]. cbn [encoding w1] in Ha.
      apply in_app_or in Ha as [Ha|[Ha|[]]].
      - rewrite Forall_forall in Hacc. specialize (Hacc _ Ha). lia.
      - lia. }
    assert (Henc1 : (encoding w1 < length (heap w1))%nat).
    { cbn [heap encoding w1]. rewrite length_app. cbn. lia. }
    specialize (IH w1 (acc ++ [encoding w]) Henc1 Hacc1 Hnd1).
    cbn zeta in IH.
    destruct IH as ([news [Hh Hn]] & He & Hd & Hr & Hs & Ht & Hf & Hn').
    assert (Hv1 : deref (heap w1) (encoding w1) = t_add v (delta c)).
    { cbn [heap encoding w1]. unfold deref. apply nth_middle. }
    rewrite Hv1 in Hd, Ht. cbn [rng seeded_calls w1] in Hd, Hr, Ht.
    repeat split; try assumption.
    + exists (t_add v (delta c) :: news). split.
      * rewrite Hh. cbn [heap w1]. now rewrite <- app_assoc.
      * cbn. now rewrite Hn.
    + rewrite Hr. cbn [unseeded_calls w1 length]. f_equal. lia.
    + rewrite Ht. cbn [heap w1].
      rewrite tf_stack_app_store.
      * unfold tf_stack. rewrite map_app, <- app_assoc. reflexivity.
      * apply Forall_app. split; [exact Hacc|].
        constructor; [exact Henc|constructor].
Qed.

Let batch := walk_batch generate_image fromarray standard_normal entropy.

(** One turn of the outer loop hands the model the next [batch_size]
    positions of the walk. *)
Lemma walk_batch_spec (batch_size : Z) (w : walker Frame) :
  (encoding w < length (heap w))%nat ->
  let w' := batch batch_size step_size seed noise w in
  let n := Z.to_nat batch_size in
  let v := deref (heap w) (encoding w) in
  let c := seeded_calls (rng w) in
  (exists news, heap w' = heap w ++ news /\ length news = n)
  /\ (encoding w' < length (heap w'))%nat
  /\ deref (heap w') (encoding w') = position delta v c n
  /\ rng w' = {| seeded_calls := c + n;
                 unseeded_calls := unseeded_calls (rng w) |}
  /\ sampled w'
     = sample fromarray (sampled w) (walk_from delta v c n)
              (generate_image (walk_from delta v c n) batch_size 25 [noise]).
Proof.
  intros Henc. cbn zeta. unfold batch, walk_batch.
  assert (Hnd : NoDup (@nil nat ++ [encoding w]))
    by (repeat constructor; easy).
  pose proof (@walk_steps_spec (Py.range batch_size) w []
                Henc (Forall_nil _) Hnd) as H.
  cbn zeta in H. unfold step in H.
  destruct (fold_left _ (Py.range batch_size) (w, [])) as [w' refs].
  cbn [fst snd] in H. cbn [heap encoding rng sampled].
  assert (Hlen : length (Py.range batch_size) = Z.to_nat batch_size)
    by (unfold Py.range; now rewrite length_map, length_seq).
  rewrite Hlen in H.
  destruct H as (Hh & He & Hd & Hr & Hs & Ht & _ & _).
  cbn [tf_stack map app] in Ht.
  repeat split; try assumption. now rewrite Ht, Hs.
Qed.

(** The outer loop, whatever the list it iterates over. *)
Lemma walk_batches_spec (batch_size : Z) (l : list Z) :
  forall w : walker Frame,
    (encoding w < length (heap w))%nat ->
    let w' := fold_left
                (fun w _ => batch batch_size step_size seed noise w) l w in
    let n := Z.to_nat batch_size in
    let v := deref (heap w) (encoding w) in
    let c := seeded_calls (rng w) in
    (exists news, heap w' = heap w ++ news)
    /\ (encoding w' < length (heap w'))%nat
    /\ deref (heap w') (encoding w') = position delta v c (n * length l)
    /\ rng w' = {| seeded_calls := c + n * length l;
                   unseeded_calls := unseeded_calls (rng w) |}
    /\ exists called,
         batches (sampled w') = batches (sampled w) ++ called
         /\ length called = length l
         /\ Forall (fun b => length b = n) called
         /\ concat called = walk_from delta v c (n * length l)
         /\ images (sampled w')
            = images (sampled w)
              ++ flat_map (fun b => map fromarray
                                      (generate_image b batch_size 25 [noise]))
                          called.
Proof.
  induction l as [|x l IH]; intros w Henc; cbn zeta.
  - cbn [fold_left length]. rewrite Nat.mul_0_r.
    repeat split; try assumption.
    + exists []. now rewrite app_nil_r.
    + destruct (rng w). cbn. f_equal. lia.
    + exists []. cbn. rewrite !app_nil_r. repeat split. constructor.
  - cbn [fold_left].
    pose proof (@walk_batch_spec batch_size w Henc) as H1.
    cbn zeta in H1.
    destruct H1 as ([news1 [Hh1 _]] & He1 & Hd1 & Hr1 & Hs1).
    set (w1 := batch batch_size step_size seed noise w) in *.
    pose proof (IH w1 He1) as H2. cbn zeta in H2.
    destruct H2 as ([news Hh] & He & Hd & Hr & Hc).
    destruct Hc as (called & Hb & Hl & Hf & Hcc & Hi).
    rewrite Hd1, Hr1 in *. cbn [seeded_calls unseeded_calls] in *.
    set (n := Z.to_nat batch_size) in *.
    set (v := deref (heap w) (encoding w)) in *.
    set (c := seeded_calls (rng w)) in *.
    replace (n * length (x :: l))%nat with (n + n * length l)%nat
      by (cbn [length]; lia).
    repeat split.
    + exists (news1 ++ news). now rewrite Hh, Hh1, app_assoc.
    + exact He.
    + now rewrite Hd, position_add.
    + rewrite Hr. f_equal. lia.
    + exists (walk_from delta v c n :: called).
      rewrite Hs1 in Hb, Hi. cbn [sample batches images] in Hb, Hi.
      repeat split.
      * now rewrite Hb, <- app_assoc.
      * cbn. now rewrite Hl.
      * constructor; [apply walk_from_length|exact Hf].
      * cbn [concat]. now rewrite Hcc, walk_from_app.
      * rewrite Hi, <- app_assoc. reflexivity.
Qed.

(** The random walk runs to its end on every batch size that is not zero,
    and hands the model the positions of the walk, batch after batch. *)
Lemma random_walk_loop_run (walk_steps batch_size : Z) (w : walker Frame) :
  batch_size <> 0%Z ->
  (encoding w < length (heap w))%nat ->
  sampled w = no_images Frame ->
  let n := Z.to_nat batch_size in
  let q := Z.to_nat (walk_steps / batch_size) in
  let v := deref (heap w) (encoding w) in
  let c := seeded_calls (rng w) in
  exists w',
    random_walk_loop generate_image fromarray standard_normal entropy
                     walk_steps batch_size step_size seed noise w = inr w'
    /\ (exists news, heap w' = heap w ++ news)
    /\ length (batches (sampled w')) = q
    /\ Forall (fun b => length b = n) (batches (sampled w'))
    /\ concat (batches (sampled w')) = walk_from delta v c (n * q)
    /\ images (sampled w')
       = flat_map (fun b => map fromarray
                               (generate_image b batch_size 25 [noise]))
                  (batches (sampled w')).
Proof.
  intros Hb Henc Hs. cbn zeta.
  unfold random_walk_loop, Py.floordiv.
  destruct (Z.eqb_spec batch_size 0) as [E|_]; [contradiction|].
  cbn [Py.bind Py.ret]. eexists. split; [reflexivity|].
  pose proof (@walk_batches_spec batch_size
                (Py.range (walk_steps / batch_size)) w Henc) as H.
  cbn zeta in H.
  destruct H as (Hh & _ & _ & _ & called & Hc & Hl & Hf & Hcc & Hi).
  unfold batch in *.
  assert (Hlen : length (Py.range (walk_steps / batch_size))
                 = Z.to_nat (walk_steps / batch_size))
    by (unfold Py.range; now rewrite length_map, length_seq).
  rewrite Hlen in *. rewrite Hs in Hc, Hi.
  cbn [no_images batches images app] in Hc, Hi.
  rewrite Hc, Hi. repeat split; assumption.
Qed.

End RandomWalkFacts.

(** ** The circular walk *)

Lemma nth_error_map_seq {A} (f : nat -> A) (m i : nat) :
  (i < m)%nat -> nth_error (map f (seq 0 m)) i = Some (f i).
Proof.
  intros H. rewrite nth_error_map, nth_error_seq.
  destruct (Nat.ltb_spec i m); [reflexivity|lia].
Qed.

Lemma t_add_unit_zero (x y : tensor) :
  length x = length y ->
  t_add (map (fun a => (1 * a)%R) x) (map (fun a => (0 * a)%R) y) = x.
Proof.
  unfold t_add, zip_with. revert y.
  induction x as [|a x IH]; intros [|b y] H; try discriminate; [reflexivity|].
  cbn [map combine fst snd]. rewrite IH by (cbn in H; lia). f_equal. lra.
Qed.

Lemma circular_vector_period (x y : tensor) (steps : Z) (i : nat) :
  (0 < steps)%Z ->
  circular_vector x y steps (i + Z.to_nat steps)
  = circular_vector x y steps i.
Proof.
  intros Hs. unfold circular_vector.
  assert (Hn : IZR steps <> 0%R) by (apply not_0_IZR; lia).
  assert (E : (2 * PI * INR (i + Z.to_nat steps) / IZR steps
               = 2 * PI * INR i / IZR steps + 2 * INR 1 * PI)%R).
  { rewrite plus_INR, (INR_IZR_INZ (Z.to_nat steps)), Z2Nat.id by lia.
    cbn [INR]. field. exact Hn. }
  now rewrite E, cos_period, sin_period.
Qed.

Lemma circular_vector_start (x y : tensor) (steps : Z) :
  length x = length y -> circular_vector x y steps 0 = x.
Proof.
  intros H. unfold circular_vector. cbn [INR].
  replace (2 * PI * 0 / IZR steps)%R with 0%R by (unfold Rdiv; ring).
  rewrite cos_0, sin_0. now apply t_add_unit_zero.
Qed.

Section CircularFacts.

Variables Img Frame : Type.
Variable generate_image : list tensor -> Z -> Z -> list tensor -> list Img.
Variable fromarray : Img -> Frame.

Lemma circular_loop_run prompt_encoding x y (steps batch_size : Z) :
  (0 < batch_size)%Z ->
  circular_loop generate_image fromarray prompt_encoding x y steps batch_size
  = inr {| batches :=
             map (chunk (circular_vector x y steps) (Z.to_nat batch_size))
                 (seq 0 (Z.to_nat (steps / batch_size)));
           images :=
             flat_map
               (fun i => map fromarray
                           (generate_image [prompt_encoding] batch_size 25
                              (chunk (circular_vector x y steps)
                                              (Z.to_nat batch_size) i)))
               (seq 0 (Z.to_nat (steps / batch_size))) |}.
Proof.
  intros Hb. unfold circular_loop, Py.floordiv.
  destruct (Z.eqb_spec batch_size 0) as [E|_]; [lia|].
  cbn [Py.bind]. unfold Py.range.
  rewrite (@for_each_sample Img Frame fromarray Z _ _
             (fun idx => chunk (circular_vector x y steps)
                               (Z.to_nat batch_size) (Z.to_nat idx))
             (fun idx => generate_image [prompt_encoding] batch_size 25
                           (chunk (circular_vector x y steps)
                                  (Z.to_nat batch_size) (Z.to_nat idx)))).
  - cbn [no_images batches images app]. f_equal. f_equal.
    + rewrite map_map. apply map_ext. intros i. now rewrite Nat2Z.id.
    + rewrite flat_map_concat_map, map_map, <- flat_map_concat_map.
      apply flat_map_ext. intros i. now rewrite Nat2Z.id.
  - intros idx s Hin. apply in_map_iff in Hin as [i [<- _]].
    rewrite (step_offsets_eq i Hb). cbn [Py.bind Py.ret].
    rewrite Nat2Z.id. unfold tensordot0. rewrite !map_map.
    rewrite zip_with_map_same.
    assert (Hbatch :
      map (fun k =>
             t_add
               (map (fun a =>
                       (cos (INR (Z.to_nat batch_size * i + k) * 2 * PI
                             / IZR steps) * a)%R) x)
               (map (fun a =>
                       (sin (INR (Z.to_nat batch_size * i + k) * 2 * PI
                             / IZR steps) * a)%R) y))
          (seq 0 (Z.to_nat batch_size))
      = chunk (circular_vector x y steps) (Z.to_nat batch_size) i).
    { apply map_ext. intros k. unfold circular_vector.
      now replace (INR (Z.to_nat batch_size * i + k) * 2 * PI / IZR steps)%R
        with (2 * PI * INR (Z.to_nat batch_size * i + k) / IZR steps)%R
        by (unfold Rdiv; ring). }
    now rewrite Hbatch.
Qed.

(** C4, as amended. On a batch size and a number of steps that are
    positive, the circular walk hands the model, in order, the vectors
    [cos(2 pi i / steps) * noiseX + sin(2 pi i / steps) * noiseY] for the
    indices [i] it reaches: all of [0 .. steps) when the batch size divides
    [steps].  The formula has period [steps]: the vector at index 0 is
    [noiseX], and so is the vector at index [steps]. *)
Theorem circular_walk_periodic prompt_encoding x y (steps batch_size : Z) :
  (0 < batch_size)%Z -> (0 < steps)%Z -> length x = length y ->
  exists s,
    circular_loop generate_image fromarray prompt_encoding x y
                  steps batch_size = inr s
    /\ length (concat (batches s))
       = (Z.to_nat batch_size * Z.to_nat (steps / batch_size))%nat
    /\ (forall i, (i < length (concat (batches s)))%nat ->
          nth_error (concat (batches s)) i
          = Some (circular_vector x y steps i))
    /\ ((batch_size | steps)%Z ->
        length (concat (batches s)) = Z.to_nat steps)
    /\ (forall i, circular_vector x y steps (i + Z.to_nat steps)
                  = circular_vector x y steps i)
    /\ circular_vector x y steps 0 = x
    /\ circular_vector x y steps (Z.to_nat steps) = x.
Proof.
  intros Hb Hs Hxy. rewrite (circular_loop_run prompt_encoding x y steps Hb).
  eexists. split; [reflexivity|]. cbn [batches].
  rewrite concat_chunks.
  assert (Hlen : length (map (circular_vector x y steps)
                   (seq 0 (Z.to_nat batch_size
                           * Z.to_nat (steps / batch_size))))
                 = (Z.to_nat batch_size * Z.to_nat (steps / batch_size))%nat)
    by now rewrite length_map, length_seq.
  rewrite Hlen. repeat split.
  - intros i Hi. now apply nth_error_map_seq.
  - intros [q Hq]. subst steps. rewrite Z.div_mul by lia. nia.
  - intros i. now apply circular_vector_period.
  - now apply circular_vector_start.
  - rewrite <- (circular_vector_start x y steps Hxy) at 2.
    apply (circular_vector_period x y 0 Hs).
Qed.

End CircularFacts.

(** A circular walk of 4 steps in batches of 2. *)
Lemma circular_walk_periodic_witness :
  (0 < 2)%Z /\ (0 < 4)%Z /\ length [1%R] = length [2%R]
  /\ exists s,
      circular_loop echo_noise as_is [] [1%R] [2%R] 4 2 = inr s
      /\ length (concat (batches s)) = (Z.to_nat 2 * Z.to_nat (4 / 2))%nat
      /\ (forall i, (i < length (concat (batches s)))%nat ->
            nth_error (concat (batches s)) i
            = Some (circular_vector [1%R] [2%R] 4 i))
      /\ ((2 | 4)%Z -> length (concat (batches s)) = Z.to_nat 4)
      /\ (forall i, circular_vector [1%R] [2%R] 4 (i + Z.to_nat 4)
                    = circular_vector [1%R] [2%R] 4 i)
      /\ circular_vector [1%R] [2%R] 4 0 = [1%R]
      /\ circular_vector [1%R] [2%R] 4 (Z.to_nat 4) = [1%R].
Proof.
  split; [lia|]. split; [lia|]. split; [reflexivity|].
  apply (@circular_walk_periodic tensor tensor echo_noise as_is
           [] [1%R] [2%R] 4%Z 2%Z); [lia|lia|reflexivity].
Defined.

(** C4, as the claim has it, fails when the batch size does not divide the
    number of steps: on 10 steps in batches of 4 the walk has 8 vectors and
    none of index 8 or 9, and on 3 steps in batches of 4 it has none at
    all. *)
Lemma circular_walk_drops_remainder :
  chunk_sizes (circular_loop echo_noise as_is [] [1%R] [2%R] 10 4)
  = inr [4; 4]%nat
  /\ (forall s,
        circular_loop echo_noise as_is [] [1%R] [2%R] 10 4 = inr s ->
        nth_error (concat (batches s)) 8 = None
        /\ nth_error (concat (batches s)) 9 = None)
  /\ circular_loop echo_noise as_is [] [1%R] [2%R] 3 4
     = inr (no_images tensor).
Proof.
  rewrite !circular_loop_run by lia.
  change (Z.to_nat (10 / 4)) with 2%nat. change (Z.to_nat (3 / 4)) with 0%nat.
  change (Z.to_nat 4) with 4%nat.
  split; [|split].
  - unfold chunk_sizes. cbn [Py.bind Py.ret batches]. now rewrite map_map.
  - intros s Hs. injection Hs as <-. cbn [batches concat].
    split; apply nth_error_None;
      unfold chunk; rewrite !length_app, !length_map, !length_seq; cbn; lia.
  - reflexivity.
Qed.

(** ** The claims on the random walk *)

Section RandomWalkClaims.

Variables Img Frame : Type.
Variable generate_image : list tensor -> Z -> Z -> list tensor -> list Img.
Variable fromarray : Img -> Frame.
Variable standard_normal : Z -> nat -> list Z -> tensor.
Variable entropy : nat -> list Z -> tensor.

(** C8. The random walk, run from the object [encoding] is bound to, hands
    the model a walk whose first vector is the start and whose every later
    vector is the one before it plus the delta drawn at that step.  The
    vectors are read by [tf.stack] after all the updates of their batch, so
    no update reaches a vector already collected: the tensor objects that
    existed are unchanged in the store, which only grows, and the
    references collected in a batch are distinct objects. *)
Theorem random_walk_positions (walk_steps batch_size : Z) (step_size : R)
    (seed : Z) (noise : tensor) (w : walker Frame) :
  batch_size <> 0%Z ->
  (encoding w < length (heap w))%nat ->
  sampled w = no_images Frame ->
  exists w',
    random_walk_loop generate_image fromarray standard_normal entropy
                     walk_steps batch_size step_size seed noise w = inr w'
    /\ length (concat (batches (sampled w')))
       = (Z.to_nat batch_size * Z.to_nat (walk_steps / batch_size))%nat
    /\ ((0 < length (concat (batches (sampled w'))))%nat ->
        nth_error (concat (batches (sampled w'))) 0
        = Some (deref (heap w) (encoding w)))
    /\ (forall i, (S i < length (concat (batches (sampled w'))))%nat ->
          exists p,
            nth_error (concat (batches (sampled w'))) i = Some p
            /\ nth_error (concat (batches (sampled w'))) (S i)
               = Some (t_add p (random_deltas standard_normal step_size seed
                                  (seeded_calls (rng w) + i))))
    /\ (exists news, heap w' = heap w ++ news)
    /\ NoDup (snd (fold_left
                     (fun st _ => walk_step standard_normal entropy
                                            step_size seed st)
                     (Py.range batch_size) (w, []))).
Proof.
  intros Hb Henc Hs.
  pose proof (@random_walk_loop_run Img Frame generate_image fromarray
                standard_normal entropy step_size seed noise
                walk_steps batch_size w Hb Henc Hs) as H.
  cbn zeta in H. destruct H as (w' & Hrun & Hh & _ & _ & Hc & _).
  exists w'. split; [exact Hrun|]. rewrite Hc, walk_from_length.
  repeat split.
  - apply walk_from_head.
  - intros i Hi. now apply walk_from_succ.
  - exact Hh.
  - assert (Hnd : NoDup (@nil nat ++ [encoding w]))
      by (repeat constructor; easy).
    pose proof (@walk_steps_spec Frame standard_normal entropy step_size
                  seed (Py.range batch_size) w [] Henc (Forall_nil _) Hnd)
      as H.
    cbn zeta in H. destruct H as (_ & _ & _ & _ & _ & _ & _ & H).
    now apply NoDup_app_remove_r in H.
Qed.

End RandomWalkClaims.

(** A random walk of 4 steps in batches of 2 from the tensor [[0]]. *)
Lemma random_walk_positions_witness :
  2%Z <> 0%Z
  /\ (encoding (walker_at tensor [0%R])
      < length (heap (walker_at tensor [0%R])))%nat
  /\ sampled (walker_at tensor [0%R]) = no_images tensor
  /\ exists w',
      random_walk_loop echo_encodings as_is ones_kernel zeros_run
                       4 2 1 12345 [] (walker_at tensor [0%R]) = inr w'
      /\ length (concat (batches (sampled w')))
         = (Z.to_nat 2 * Z.to_nat (4 / 2))%nat
      /\ ((0 < length (concat (batches (sampled w'))))%nat ->
          nth_error (concat (batches (sampled w'))) 0
          = Some (deref (heap (walker_at tensor [0%R]))
                        (encoding (walker_at tensor [0%R]))))
      /\ (forall i, (S i < length (concat (batches (sampled w'))))%nat ->
            exists p,
              nth_error (concat (batches (sampled w'))) i = Some p
              /\ nth_error (concat (batches (sampled w'))) (S i)
                 = Some (t_add p (random_deltas ones_kernel 1 12345
                                    (seeded_calls
                                       (rng (walker_at tensor [0%R])) + i))))
      /\ (exists news,
             heap w' = heap (walker_at tensor [0%R]) ++ news)
      /\ NoDup (snd (fold_left
                       (fun st _ => walk_step ones_kernel zeros_run
                                              1 12345 st)
                       (Py.range 2) (walker_at tensor [0%R], []))).
Proof.
  split; [lia|]. split; [cbn; lia|]. split; [reflexivity|].
  apply (@random_walk_positions tensor tensor echo_encodings as_is
           ones_kernel zeros_run 4%Z 2%Z 1%R 12345%Z []
           (walker_at tensor [0%R])); [lia|cbn; lia|reflexivity].
Defined.

(** ** Which draws a walk depends on *)

(** The vectors the random walk hands the model depend on the start, the
    step count, the batch size, the step size, the seed and how far the
    seeded kernel has counted, and on nothing else: not on how the store is
    laid out, nor on the draws made without a seed, before or during the
    run. *)
Lemma random_walk_same_seed_same_walk {Img Frame}
    (generate_image : list tensor -> Z -> Z -> list tensor -> list Img)
    (fromarray : Img -> Frame) standard_normal entropy1 entropy2
    walk_steps batch_size step_size seed noise (w1 w2 : walker Frame) :
  batch_size <> 0%Z ->
  (encoding w1 < length (heap w1))%nat ->
  (encoding w2 < length (heap w2))%nat ->
  sampled w1 = no_images Frame -> sampled w2 = no_images Frame ->
  deref (heap w1) (encoding w1) = deref (heap w2) (encoding w2) ->
  seeded_calls (rng w1) = seeded_calls (rng w2) ->
  exists w1' w2',
    random_walk_loop generate_image fromarray standard_normal entropy1
                     walk_steps batch_size step_size seed noise w1 = inr w1'
    /\ random_walk_loop generate_image fromarray standard_normal entropy2
                        walk_steps batch_size step_size seed noise w2
       = inr w2'
    /\ concat (batches (sampled w1')) = concat (batches (sampled w2')).
Proof.
  intros Hb He1 He2 Hs1 Hs2 Hv Hc.
  pose proof (@random_walk_loop_run Img Frame generate_image fromarray
                standard_normal entropy1 step_size seed noise
                walk_steps batch_size w1 Hb He1 Hs1) as H1.
  pose proof (@random_walk_loop_run Img Frame generate_image fromarray
                standard_normal entropy2 step_size seed noise
                walk_steps batch_size w2 Hb He2 Hs2) as H2.
  cbn zeta in H1, H2.
  destruct H1 as (w1' & Hr1 & _ & _ & _ & Hc1 & _).
  destruct H2 as (w2' & Hr2 & _ & _ & _ & Hc2 & _).
  exists w1', w2'. split; [exact Hr1|]. split; [exact Hr2|].
  now rewrite Hc1, Hc2, Hv, Hc.
Qed.

(** C5, on the code. The two base tensors of the circular walk are drawn
    with no seed argument, unlike the noise of line 95 and the deltas of
    line 181: two runs of the script, with the one seed it defines, that
    draw different tensors walk differently. *)
Lemma circular_walk_not_reproducible :
  circular_walk echo_noise as_is ones_kernel zeros_run fresh_rng
                [1%Z] [] 1 1
  <> circular_walk echo_noise as_is ones_kernel ones_run fresh_rng
                   [1%Z] [] 1 1.
Proof.
  unfold circular_walk, tf_random_normal, zeros_run, ones_run, t_mul.
  cbn [map unseeded_calls fresh_rng].
  rewrite !circular_loop_run by lia.
  intros H. injection H as Hb _. revert Hb.
  change (Z.to_nat (1 / 1)) with 1%nat. change (Z.to_nat 1) with 1%nat.
  cbn [seq map chunk Nat.mul Nat.add].
  replace (2 * PI * 0 / 1)%R with 0%R by (unfold Rdiv; ring).
  rewrite cos_0, sin_0. lra.
Qed.

(** ** Batching *)

Lemma length_flat_map_uniform {A B} (g : A -> list B) (b : nat) (l : list A) :
  (forall a, In a l -> length (g a) = b) ->
  length (flat_map g l) = (b * length l)%nat.
Proof.
  induction l as [|a l IH]; intros H; cbn [flat_map length]; [lia|].
  rewrite length_app, H, IH by (try (intros; apply H); now constructor).
  lia.
Qed.

Lemma flat_map_of_map {A B C} (g : B -> list C) (h : A -> B) (l : list A) :
  flat_map g (map h l) = flat_map (fun x => g (h x)) l.
Proof.
  induction l as [|a l IH]; [reflexivity|]. cbn. now rewrite IH.
Qed.

Lemma chunk_length {A} (f : nat -> A) (b i : nat) : length (chunk f b i) = b.
Proof. unfold chunk. now rewrite length_map, length_seq. Qed.

Lemma full_batches_count (steps batch_size : Z) :
  (0 < batch_size)%Z -> (0 <= steps)%Z ->
  Z.of_nat (Z.to_nat batch_size * Z.to_nat (steps / batch_size))
  = (steps - steps mod batch_size)%Z.
Proof.
  intros Hb Hs.
  pose proof (Z.div_pos steps batch_size Hs Hb).
  rewrite Nat2Z.inj_mul, !Z2Nat.id by lia.
  rewrite (Z.mod_eq steps batch_size) by lia. lia.
Qed.

Section BatchingClaims.

Variables Img Frame : Type.
Variable generate_image : list tensor -> Z -> Z -> list tensor -> list Img.
Variable fromarray : Img -> Frame.
Variable standard_normal : Z -> nat -> list Z -> tensor.
Variable entropy : nat -> list Z -> tensor.

(** Given a batch of [batch_size] encodings, the model returns [batch_size]
    images. *)
Hypothesis generate_image_length :
  forall encoded_text batch_size num_steps diffusion_noise,
    length encoded_text = Z.to_nat batch_size ->
    length (generate_image encoded_text batch_size num_steps diffusion_noise)
    = Z.to_nat batch_size.

(** C2, as amended. On a walk of [L >= 0] steps and a batch size [B > 0],
    both text-encoding loops call the model [floor(L / B)] times, each time
    on exactly [B] vectors: the vectors of the walk in order, and the images
    in the order of the vectors.  The output has [B * floor(L / B)]
    = [L - L mod B] frames: [L] when [B] divides [L], and otherwise the last
    [L mod B] vectors of the walk are not sampled. *)
Theorem batched_sampler_full_batches (encoding_1 encoding_2 noise : tensor)
    (steps batch_size : Z) (step_size : R) (seed : Z) (w : walker Frame) :
  (0 < batch_size)%Z -> (0 <= steps)%Z ->
  (encoding w < length (heap w))%nat -> sampled w = no_images Frame ->
  let b := Z.to_nat batch_size in
  let q := Z.to_nat (steps / batch_size) in
  (exists s,
      interpolation_loop generate_image fromarray encoding_1 encoding_2
                         steps batch_size noise = inr s
      /\ length (batches s) = q
      /\ Forall (fun c => length c = b) (batches s)
      /\ concat (batches s)
         = map (fine_vector encoding_1 encoding_2 steps) (seq 0 (b * q))
      /\ images s
         = flat_map (fun c => map fromarray
                                (generate_image c batch_size 25 [noise]))
                    (batches s)
      /\ length (images s) = (b * q)%nat)
  /\ (exists w',
         random_walk_loop generate_image fromarray standard_normal entropy
                          steps batch_size step_size seed noise w = inr w'
         /\ length (batches (sampled w')) = q
         /\ Forall (fun c => length c = b) (batches (sampled w'))
         /\ concat (batches (sampled w'))
            = walk_from (random_deltas standard_normal step_size seed)
                        (deref (heap w) (encoding w)) (seeded_calls (rng w))
                        (b * q)
         /\ images (sampled w')
            = flat_map (fun c => map fromarray
                                   (generate_image c batch_size 25 [noise]))
                       (batches (sampled w'))
         /\ length (images (sampled w')) = (b * q)%nat)
  /\ Z.of_nat (b * q) = (steps - steps mod batch_size)%Z
  /\ ((b * q)%nat = Z.to_nat steps <-> (steps mod batch_size = 0)%Z).
Proof.
  intros Hb Hs Henc Hw. cbn zeta.
  assert (Himg : forall l : list (list tensor),
             Forall (fun c => length c = Z.to_nat batch_size) l ->
             length (flat_map (fun c => map fromarray
                                 (generate_image c batch_size 25 [noise])) l)
             = (Z.to_nat batch_size * length l)%nat).
  { intros l Hl. apply length_flat_map_uniform. intros c Hc.
    rewrite Forall_forall in Hl.
    now rewrite length_map, generate_image_length by now apply Hl. }
  assert (Hchunks : forall (f : nat -> tensor) n,
             Forall (fun c => length c = Z.to_nat batch_size)
                    (map (chunk f (Z.to_nat batch_size)) (seq 0 n))).
  { intros f n. apply Forall_forall. intros c Hc.
    apply in_map_iff in Hc as [i [<- _]]. apply chunk_length. }
  pose proof (full_batches_count Hb Hs) as Hcount.
  split; [|split; [|split]].
  - rewrite (interpolation_loop_run generate_image fromarray
               encoding_1 encoding_2 steps noise Hb).
    eexists. split; [reflexivity|]. cbn [batches images].
    rewrite length_map, length_seq, concat_chunks.
    repeat split.
    + apply Hchunks.
    + now rewrite flat_map_of_map.
    + rewrite <- (flat_map_of_map
                    (fun c => map fromarray
                                (generate_image c batch_size 25 [noise]))).
      now rewrite Himg, length_map, length_seq by apply Hchunks.
  - assert (Hb0 : batch_size <> 0%Z) by lia.
    pose proof (@random_walk_loop_run Img Frame generate_image fromarray
                  standard_normal entropy step_size seed noise
                  steps batch_size w Hb0 Henc Hw) as H.
    cbn zeta in H. destruct H as (w' & Hrun & _ & Hl & Hf & Hc & Hi).
    exists w'. repeat split; try assumption.
    now rewrite Hi, Himg, Hl by exact Hf.
  - exact Hcount.
  - pose proof (Z.mod_pos_bound steps batch_size Hb). lia.
Qed.

End BatchingClaims.

(** Both loops on 10 steps in batches of 4. *)
Lemma batched_sampler_full_batches_witness :
  (forall encoded_text batch_size num_steps diffusion_noise,
      length encoded_text = Z.to_nat batch_size ->
      length (echo_encodings encoded_text batch_size num_steps
                             diffusion_noise)
      = Z.to_nat batch_size)
  /\ (0 < 4)%Z /\ (0 <= 10)%Z
  /\ (encoding (walker_at tensor [0%R])
      < length (heap (walker_at tensor [0%R])))%nat
  /\ sampled (walker_at tensor [0%R]) = no_images tensor
  /\ (exists s,
         interpolation_loop echo_encodings as_is [0%R] [1%R] 10 4 [] = inr s
         /\ length (batches s) = Z.to_nat (10 / 4)
         /\ Forall (fun c => length c = Z.to_nat 4) (batches s)
         /\ concat (batches s)
            = map (fine_vector [0%R] [1%R] 10)
                  (seq 0 (Z.to_nat 4 * Z.to_nat (10 / 4)))
         /\ images s
            = flat_map (fun c => map as_is (echo_encodings c 4 25 [[]]))
                       (batches s)
         /\ length (images s) = (Z.to_nat 4 * Z.to_nat (10 / 4))%nat)
  /\ (exists w',
         random_walk_loop echo_encodings as_is ones_kernel zeros_run
                          10 4 1 12345 [] (walker_at tensor [0%R]) = inr w'
         /\ length (batches (sampled w')) = Z.to_nat (10 / 4)
         /\ Forall (fun c => length c = Z.to_nat 4) (batches (sampled w'))
         /\ concat (batches (sampled w'))
            = walk_from (random_deltas ones_kernel 1 12345)
                        (deref (heap (walker_at tensor [0%R]))
                               (encoding (walker_at tensor [0%R])))
                        (seeded_calls (rng (walker_at tensor [0%R])))
                        (Z.to_nat 4 * Z.to_nat (10 / 4))
         /\ images (sampled w')
            = flat_map (fun c => map as_is (echo_encodings c 4 25 [[]]))
                       (batches (sampled w'))
         /\ length (images (sampled w'))
            = (Z.to_nat 4 * Z.to_nat (10 / 4))%nat)
  /\ Z.of_nat (Z.to_nat 4 * Z.to_nat (10 / 4)) = (10 - 10 mod 4)%Z
  /\ ((Z.to_nat 4 * Z.to_nat (10 / 4))%nat = Z.to_nat 10
      <-> (10 mod 4 = 0)%Z).
Proof.
  split; [intros; assumption|].
  split; [lia|]. split; [lia|]. split; [cbn; lia|]. split; [reflexivity|].
  apply (@batched_sampler_full_batches tensor tensor echo_encodings as_is
           ones_kernel zeros_run (fun _ _ _ _ H => H)
           [0%R] [1%R] [] 10%Z 4%Z 1%R 12345%Z (walker_at tensor [0%R]));
    [lia|lia|cbn; lia|reflexivity].
Defined.

(** C2, as the claim has it, fails on a walk of 10 steps in batches of 4:
    the model is called twice, on 4 vectors each time, and 8 frames come
    out, not 10; the last two vectors are never sampled.  The random walk
    does the same. *)
Lemma batched_sampler_drops_remainder :
  chunk_sizes (interpolation_loop echo_encodings as_is [0%R] [1%R] 10 4 [])
  = inr [4; 4]%nat
  /\ frame_count (interpolation_loop echo_encodings as_is
                                     [0%R] [1%R] 10 4 [])
     = inr 8%nat
  /\ frame_count (interpolation_loop echo_encodings as_is
                                     [0%R] [1%R] 10 4 [])
     <> inr (Z.to_nat 10)
  /\ frame_count (s <- random_walk_loop echo_encodings as_is ones_kernel
                                        zeros_run 10 4 1 12345 []
                                        (walker_at tensor [0%R]) ;;
                  Py.ret (sampled s))
     = inr 8%nat.
Proof.
  repeat split; try (vm_compute; reflexivity).
  vm_compute. discriminate.
Qed.

(** ** Linear interpolation *)

Lemma zip_with_pointwise {A B C} (f g : A -> B -> C) (a : list A)
    (b : list B) :
  (forall x y, f x y = g x y) -> zip_with f a b = zip_with g a b.
Proof.
  intros H. unfold zip_with. apply map_ext. intros p. apply H.
Qed.

Lemma lerp_zero (a b : tensor) : length a = length b -> lerp a b 0 = a.
Proof.
  unfold lerp, zip_with. revert b.
  induction a as [|x a IH]; intros [|y b] H; try discriminate; [reflexivity|].
  cbn [map combine fst snd]. rewrite IH by (cbn in H; lia). f_equal. lra.
Qed.

Lemma lerp_one (a b : tensor) : length a = length b -> lerp a b 1 = b.
Proof.
  unfold lerp, zip_with. revert b.
  induction a as [|x a IH]; intros [|y b] H; try discriminate; [reflexivity|].
  cbn [map combine fst snd]. rewrite IH by (cbn in H; lia). f_equal. lra.
Qed.

(** [start + delta * i] with [delta = (stop - start) / d] is the point at
    parameter [i / d]. *)
Lemma t_add_delta (a b : tensor) (d c : R) :
  d <> 0%R ->
  t_add a (t_mul (t_div (t_sub b a) d) c) = lerp a b (c / d).
Proof.
  intros Hd. unfold t_add, t_mul, t_div, t_sub, lerp, zip_with. revert b.
  induction a as [|x a IH]; intros [|y b]; try reflexivity.
  cbn [map combine fst snd]. rewrite IH. f_equal. field. exact Hd.
Qed.

(** The [i]-th vector of the fine-grained interpolation is the point at
    parameter [i / interpolation_steps]: the walk of [steps] vectors ends at
    parameter [(steps - 1) / steps], one step short of [encoding_2]. *)
Lemma fine_vector_lerp (encoding_1 encoding_2 : tensor) (steps : Z) (i : nat) :
  steps <> 0%Z ->
  fine_vector encoding_1 encoding_2 steps i
  = lerp encoding_1 encoding_2 (INR i / IZR steps).
Proof.
  intros Hs. assert (Hd : IZR steps <> 0%R) by now apply not_0_IZR.
  unfold fine_vector, encoding_step, t_add, t_div, t_sub, lerp, zip_with.
  revert encoding_2.
  induction encoding_1 as [|x a IH]; intros [|y b]; try reflexivity.
  cbn [map combine fst snd]. rewrite IH. f_equal. field. exact Hd.
Qed.

(** [tf.linspace] between two tensors of one shape: both ends are hit, and
    the vectors are evenly spaced in the parameter. *)
Lemma interpolated_encodings_spaced (encoding_1 encoding_2 : tensor)
    (steps : Z) :
  (2 <= steps)%Z -> length encoding_1 = length encoding_2 ->
  exists walk,
    interpolated_encodings encoding_1 encoding_2 steps = inr walk
    /\ length walk = Z.to_nat steps
    /\ nth_error walk 0 = Some encoding_1
    /\ nth_error walk (Z.to_nat steps - 1) = Some encoding_2
    /\ forall i, (i < Z.to_nat steps)%nat ->
         nth_error walk i
         = Some (lerp encoding_1 encoding_2
                      (INR i / INR (Z.to_nat steps - 1))).
Proof.
  intros Hs Hlen.
  destruct (Z.to_nat steps) as [|[|m]] eqn:Hn; try lia.
  assert (Hsteps : steps = Z.of_nat (S (S m))) by lia.
  assert (Hm : INR (S m) <> 0%R) by (apply not_0_INR; lia).
  assert (Hwalk :
    interpolated_encodings encoding_1 encoding_2 steps
    = inr (map (fun i => lerp encoding_1 encoding_2 (INR i / INR (S m)))
               (seq 0 (S (S m))))).
  { unfold interpolated_encodings, tf_linspace_nd.
    rewrite Hlen, Nat.eqb_refl, Hsteps, linspace_many.
    change (seq 0 (S (S m))) with (0%nat :: seq 1 (S m)).
    rewrite (seq_S m 1), map_cons, map_app. cbn [map Nat.add]. f_equal.
    f_equal; [|f_equal].
    - change (INR 0) with 0%R.
      replace (0 / INR (S m))%R with 0%R by (field; exact Hm).
      symmetry. now apply lerp_zero.
    - apply map_ext. intros i. now apply t_add_delta.
    - replace (INR (S m) / INR (S m))%R with 1%R by (field; exact Hm).
      f_equal. symmetry. now apply lerp_one. }
  exists (map (fun i => lerp encoding_1 encoding_2 (INR i / INR (S m)))
              (seq 0 (S (S m)))).
  replace (S (S m) - 1)%nat with (S m) by lia.
  split; [exact Hwalk|]. split; [now rewrite length_map, length_seq|].
  split; [|split].
  - rewrite nth_error_map_seq by lia. change (INR 0) with 0%R.
    replace (0 / INR (S m))%R with 0%R by (field; exact Hm).
    now rewrite lerp_zero.
  - rewrite nth_error_map_seq by lia.
    replace (INR (S m) / INR (S m))%R with 1%R by (field; exact Hm).
    now rewrite lerp_one.
  - intros i Hi.
    now apply (nth_error_map_seq
                 (fun i => lerp encoding_1 encoding_2 (INR i / INR (S m)))).
Qed.

(** C3, on the code. From [[0, 0]] to [[1, 1]] in 3 steps the fine-grained
    interpolation computes [[0, 0]], [[1/3, 1/3]], [[2/3, 2/3]]: its step is
    [(encoding_2 - encoding_1) / interpolation_steps], so the last vector is
    one step short of [encoding_2].  [tf.linspace], on the same input, gives
    [[0, 0]], [[1/2, 1/2]], [[1, 1]]. *)
Theorem fine_interpolation_stops_short :
  interpolation_loop echo_encodings as_is [0; 0]%R [1; 1]%R 3 3 []
  = inr {| batches := [[[0; 0]; [1 / 3; 1 / 3]; [2 / 3; 2 / 3]]]%R;
           images := [[0; 0]; [1 / 3; 1 / 3]; [2 / 3; 2 / 3]]%R |}
  /\ interpolated_encodings [0; 0]%R [1; 1]%R 3
     = inr [[0; 0]; [1 / 2; 1 / 2]; [1; 1]]%R.
Proof.
  split.
  - rewrite interpolation_loop_run by lia.
    change (Z.to_nat (3 / 3)) with 1%nat. change (Z.to_nat 3) with 3%nat.
    cbn [seq map flat_map chunk app echo_encodings as_is Nat.mul Nat.add].
    rewrite !fine_vector_lerp by lia.
    unfold lerp, zip_with, as_is. cbn [combine map fst snd INR].
    replace (0 + 0 / 3 * (1 - 0))%R with 0%R by lra.
    replace (0 + 1 / 3 * (1 - 0))%R with (1 / 3)%R by lra.
    replace (0 + (1 + 1) / 3 * (1 - 0))%R with (2 / 3)%R by lra.
    reflexivity.
  - unfold interpolated_encodings, tf_linspace_nd.
    cbn [length Nat.eqb]. change 3%Z with (Z.of_nat 3).
    rewrite linspace_many.
    unfold t_add, t_mul, t_div, t_sub, zip_with.
    cbn [seq map combine fst snd app INR].
    replace (0 + (1 - 0) / (1 + 1) * 1)%R with (1 / 2)%R by lra.
    reflexivity.
Qed.

(** * Further properties of the script *)

(** ** The exporter *)

Section ExporterEdges.

Variable Frame : Type.
Implicit Types images : list Frame.

(** X1. Without the rubber band, a sequence that is not empty is handed to
    the writer as it is, at any positive rate: every input frame once, in
    order, with a duration of [1000 // frames_per_second] and a loop count
    of 0; and the caller's list is as it was. *)
Theorem export_plain filename images fps :
  images <> [] -> (0 < fps)%Z ->
  export_as_gif filename images fps false
  = (images,
     inr {| gif_filename := filename; gif_frames := images;
            gif_duration := (1000 / fps)%Z; gif_loop := 0 |}).
Proof.
  intros Hne Hpos. assert (Hfps : fps <> 0%Z) by lia.
  exact (export_as_gif_saved filename false Hne Hfps).
Qed.

(** X2. At a rate of zero a sequence that is not empty is not written:
    the floor division raises [ZeroDivisionError].  The rubber band has been
    applied by then, so the caller's list is extended all the same. *)
Theorem export_zero_rate filename images rubber_band :
  images <> [] ->
  export_as_gif filename images 0 rubber_band
  = (if rubber_band then rubber_band_extend images else images,
     inl Py.ZeroDivisionError).
Proof.
  intros Hne. unfold export_as_gif.
  set (l := if rubber_band then rubber_band_extend images else images).
  assert (Hl : l <> []).
  { subst l. destruct rubber_band; [|exact Hne].
    unfold rubber_band_extend. intros E. apply app_eq_nil in E. tauto. }
  destruct l as [|x l']; [congruence|reflexivity].
Qed.


(** X4. At a positive rate the duration the exporter asks the writer for is
    a whole number of milliseconds from 0 to 1000, and it is 0 exactly when
    the rate is above 1000 frames per second: such a rate asks for frames
    of no duration at all. *)
Theorem export_duration_range filename images fps rubber_band :
  images <> [] -> (0 < fps)%Z ->
  exists g,
    snd (export_as_gif filename images fps rubber_band) = inr g
    /\ (0 <= gif_duration g <= 1000)%Z
    /\ (gif_duration g = 0%Z <-> (1000 < fps)%Z).
Proof.
  intros Hne Hpos. assert (Hfps : fps <> 0%Z) by lia.
  rewrite (export_as_gif_saved filename rubber_band Hne Hfps).
  eexists. split; [reflexivity|]. cbn [gif_duration]. repeat split.
  - apply Z.div_pos; lia.
  - apply Z.div_le_upper_bound; lia.
  - intros H. apply Z.div_small_iff in H; lia.
  - intros H. apply Z.div_small. lia.
Qed.

(** X5. Exporting one list of four or more frames twice with the rubber
    band gives two different animations: the second call starts from the
    list the first one extended.  From [N >= 4] frames the first call hands
    over [2N - 3] frames and the second [4N - 9], which is more. *)
Theorem export_twice filename1 filename2 images fps :
  (4 <= length images)%nat -> (0 < fps)%Z ->
  exists g1 g2,
    snd (export_as_gif filename1 images fps true) = inr g1
    /\ snd (export_as_gif filename2
              (fst (export_as_gif filename1 images fps true)) fps true)
       = inr g2
    /\ length (gif_frames g1) = (2 * length images - 3)%nat
    /\ length (gif_frames g2) = (4 * length images - 9)%nat
    /\ gif_frames g1 <> gif_frames g2.
Proof.
  intros Hlen Hpos. assert (Hfps : fps <> 0%Z) by lia.
  assert (Hne : images <> []) by (destruct images; cbn in Hlen; [lia|easy]).
  pose proof (rubber_band_extend_length images) as H1.
  assert (Hne1 : rubber_band_extend images <> [])
    by (destruct (rubber_band_extend images); cbn in H1; [lia|easy]).
  rewrite (export_as_gif_saved filename1 true Hne Hfps). cbn [fst snd].
  rewrite (export_as_gif_saved filename2 true Hne1 Hfps). cbn [snd].
  do 2 eexists. split; [reflexivity|]. split; [reflexivity|].
  cbn [gif_frames].
  pose proof (rubber_band_extend_length (rubber_band_extend images)) as H2.
  split; [lia|]. split; [lia|].
  intros E. rewrite <- E in H2. lia.
Qed.

End ExporterEdges.

Local Open Scope string_scope.

(** Two frames at 25 frames per second, without the rubber band. *)
Lemma export_plain_witness :
  ["A"; "B"] <> [] /\ (0 < 25)%Z
  /\ export_as_gif "walk.gif" ["A"; "B"] 25 false
     = (["A"; "B"],
        inr {| gif_filename := "walk.gif"; gif_frames := ["A"; "B"];
               gif_duration := (1000 / 25)%Z; gif_loop := 0 |}).
Proof.
  split; [discriminate|]. split; [lia|].
  apply (@export_plain string "walk.gif" ["A"; "B"] 25%Z);
    [discriminate|lia].
Defined.

(** Four frames at a rate of zero, with the rubber band. *)
Lemma export_zero_rate_witness :
  ["A"; "B"; "C"; "D"] <> []
  /\ export_as_gif "walk.gif" ["A"; "B"; "C"; "D"] 0 true
     = (if true then rubber_band_extend ["A"; "B"; "C"; "D"]
        else ["A"; "B"; "C"; "D"],
        inl Py.ZeroDivisionError).
Proof.
  split; [discriminate|].
  apply (@export_zero_rate string "walk.gif" ["A"; "B"; "C"; "D"] true).
  discriminate.
Defined.


(** One frame at 2000 frames per second. *)
Lemma export_duration_range_witness :
  ["A"] <> [] /\ (0 < 2000)%Z
  /\ exists g,
      snd (export_as_gif "walk.gif" ["A"] 2000 false) = inr g
      /\ (0 <= gif_duration g <= 1000)%Z
      /\ (gif_duration g = 0%Z <-> (1000 < 2000)%Z).
Proof.
  split; [discriminate|]. split; [lia|].
  apply (@export_duration_range string "walk.gif" ["A"] 2000%Z false);
    [discriminate|lia].
Defined.

(** Four frames exported twice. *)
Lemma export_twice_witness :
  (4 <= length ["A"; "B"; "C"; "D"])%nat /\ (0 < 10)%Z
  /\ exists g1 g2,
      snd (export_as_gif "one.gif" ["A"; "B"; "C"; "D"] 10 true) = inr g1
      /\ snd (export_as_gif "two.gif"
                (fst (export_as_gif "one.gif" ["A"; "B"; "C"; "D"] 10 true))
                10 true)
         = inr g2
      /\ length (gif_frames g1)
         = (2 * length ["A"; "B"; "C"; "D"] - 3)%nat
      /\ length (gif_frames g2)
         = (4 * length ["A"; "B"; "C"; "D"] - 9)%nat
      /\ gif_frames g1 <> gif_frames g2.
Proof.
  split; [cbn; lia|]. split; [lia|].
  apply (@export_twice string "one.gif" "two.gif" ["A"; "B"; "C"; "D"] 10%Z);
    [cbn; lia|lia].
Defined.

Local Close Scope string_scope.

(** ** The loops at the edges of their parameters *)

Lemma range_of_small (steps batch_size : Z) :
  (0 <= steps < batch_size)%Z -> Py.range (steps / batch_size) = [].
Proof. intros H. now rewrite Z.div_small. Qed.

Section LoopEdges.

Variables Img Frame : Type.
Variable generate_image : list tensor -> Z -> Z -> list tensor -> list Img.
Variable fromarray : Img -> Frame.
Variable standard_normal : Z -> nat -> list Z -> tensor.
Variable entropy : nat -> list Z -> tensor.

(** X6. A batch size of zero stops each of the three loops, and so each of
    the three sections built on them, with [ZeroDivisionError], before the
    model is called and before anything is exported. *)
Theorem zero_batch_size_raises encoding_1 encoding_2 steps noise step_size
    seed (w : walker Frame) g noise_shape prompt_encoding x y :
  interpolation_loop generate_image fromarray encoding_1 encoding_2
                     steps 0 noise = inl Py.ZeroDivisionError
  /\ random_walk_loop generate_image fromarray standard_normal entropy
                      steps 0 step_size seed noise w
     = inl Py.ZeroDivisionError
  /\ circular_loop generate_image fromarray prompt_encoding x y steps 0
     = inl Py.ZeroDivisionError
  /\ fine_interpolation_gif generate_image fromarray encoding_1 encoding_2
                            steps 0 noise = inl Py.ZeroDivisionError
  /\ random_walk_gif generate_image fromarray standard_normal entropy
                     steps 0 step_size seed noise w
     = inl Py.ZeroDivisionError
  /\ circular_walk_gif generate_image fromarray standard_normal entropy
                       g noise_shape prompt_encoding steps 0
     = inl Py.ZeroDivisionError.
Proof. repeat split; reflexivity. Qed.

(** X7. On a walk shorter than one batch no loop does anything: the model is
    not called, no image is collected, and the random walk draws nothing and
    leaves [encoding] where it was. *)
Theorem short_walk_samples_nothing encoding_1 encoding_2 steps batch_size
    noise step_size seed (w : walker Frame) prompt_encoding x y :
  (0 <= steps < batch_size)%Z ->
  interpolation_loop generate_image fromarray encoding_1 encoding_2
                     steps batch_size noise = inr (no_images Frame)
  /\ random_walk_loop generate_image fromarray standard_normal entropy
                      steps batch_size step_size seed noise w = inr w
  /\ circular_loop generate_image fromarray prompt_encoding x y
                   steps batch_size = inr (no_images Frame).
Proof.
  intros H.
  unfold interpolation_loop, random_walk_loop, circular_loop, Py.floordiv.
  destruct (Z.eqb_spec batch_size 0) as [E|_]; [lia|].
  cbn [Py.bind]. rewrite (range_of_small H). repeat split.
Qed.

(** X8. So on a walk shorter than one batch each of the three sections ends
    in the [IndexError] of the exporter, which is handed an empty list, and
    no gif is written. *)
Theorem short_walk_exports_nothing encoding_1 encoding_2 steps batch_size
    noise step_size seed (w : walker Frame) g noise_shape prompt_encoding :
  (0 <= steps < batch_size)%Z -> sampled w = no_images Frame ->
  fine_interpolation_gif generate_image fromarray encoding_1 encoding_2
                         steps batch_size noise = inl Py.IndexError
  /\ random_walk_gif generate_image fromarray standard_normal entropy
                     steps batch_size step_size seed noise w
     = inl Py.IndexError
  /\ circular_walk_gif generate_image fromarray standard_normal entropy
                       g noise_shape prompt_encoding steps batch_size
     = inl Py.IndexError.
Proof.
  intros H Hw.
  unfold fine_interpolation_gif, random_walk_gif, circular_walk_gif,
    circular_walk, tf_random_normal.
  unfold interpolation_loop, random_walk_loop, circular_loop, Py.floordiv.
  destruct (Z.eqb_spec batch_size 0) as [E|_]; [lia|].
  cbn [Py.bind]. rewrite (range_of_small H).
  cbn [Py.for_each fold_left Py.ret Py.bind]. rewrite Hw.
  repeat split.
Qed.

End LoopEdges.

(** Three steps in batches of four. *)
Lemma short_walk_samples_nothing_witness :
  (0 <= 3 < 4)%Z
  /\ interpolation_loop echo_encodings as_is [0%R] [1%R] 3 4 []
     = inr (no_images tensor)
  /\ random_walk_loop echo_encodings as_is ones_kernel zeros_run
                      3 4 1 12345 [] (walker_at tensor [0%R])
     = inr (walker_at tensor [0%R])
  /\ circular_loop echo_encodings as_is [] [1%R] [2%R] 3 4
     = inr (no_images tensor).
Proof.
  split; [lia|].
  apply (@short_walk_samples_nothing tensor tensor echo_encodings as_is
           ones_kernel zeros_run [0%R] [1%R] 3%Z 4%Z [] 1%R 12345%Z
           (walker_at tensor [0%R]) [] [1%R] [2%R]).
  lia.
Defined.

(** Three steps in batches of four, up to the export. *)
Lemma short_walk_exports_nothing_witness :
  (0 <= 3 < 4)%Z /\ sampled (walker_at tensor [0%R]) = no_images tensor
  /\ fine_interpolation_gif echo_encodings as_is [0%R] [1%R] 3 4 []
     = inl Py.IndexError
  /\ random_walk_gif echo_encodings as_is ones_kernel zeros_run
                     3 4 1 12345 [] (walker_at tensor [0%R])
     = inl Py.IndexError
  /\ circular_walk_gif echo_encodings as_is ones_kernel zeros_run
                       fresh_rng [1%Z] [] 3 4
     = inl Py.IndexError.
Proof.
  split; [lia|]. split; [reflexivity|].
  apply (@short_walk_exports_nothing tensor tensor echo_encodings as_is
           ones_kernel zeros_run [0%R] [1%R] 3%Z 4%Z [] 1%R 12345%Z
           (walker_at tensor [0%R]) fresh_rng [1%Z] []);
    [lia|reflexivity].
Defined.

(** ** From walk to gif *)

Lemma full_batches_positive (steps batch_size : Z) :
  (0 < batch_size <= steps)%Z ->
  (0 < Z.to_nat batch_size * Z.to_nat (steps / batch_size))%nat.
Proof.
  intros H.
  assert (1 <= steps / batch_size)%Z by (apply Z.div_le_lower_bound; lia).
  nia.
Qed.

Section WalkToGif.

Variables Img Frame : Type.
Variable generate_image : list tensor -> Z -> Z -> list tensor -> list Img.
Variable fromarray : Img -> Frame.
Variable standard_normal : Z -> nat -> list Z -> tensor.
Variable entropy : nat -> list Z -> tensor.

(** What the exporter makes of the images of a loop, at the default rate. *)
Lemma export_images_saved filename rubber_band (s : sampler Frame) :
  images s <> [] ->
  export_images filename rubber_band s
  = inr (if rubber_band then rubber_band_extend (images s) else images s,
         {| gif_filename := filename;
            gif_frames :=
              if rubber_band then rubber_band_extend (images s)
              else images s;
            gif_duration := 100; gif_loop := 0 |}).
Proof.
  intros Hne. unfold export_images, export_as_gif_default.
  rewrite (export_as_gif_saved filename rubber_band Hne)
    by discriminate.
  reflexivity.
Qed.

Lemma nonempty_of_length {A} (l : list A) :
  (0 < length l)%nat -> l <> [].
Proof. destruct l; cbn; [lia|discriminate]. Qed.

(** The number of images a loop collects, when the model returns as many
    images as its batch size says. *)
Lemma sampled_images_count (g : list tensor -> list Img)
    (called : list (list tensor)) (b : nat) :
  (forall c, In c called -> length (g c) = b) ->
  length (flat_map (fun c => map fromarray (g c)) called)
  = (b * length called)%nat.
Proof.
  intros H. apply length_flat_map_uniform. intros c Hc.
  rewrite length_map. now apply H.
Qed.



(** X11. The circular walk, from walk to gif.  It is exported without the
    rubber band: when the model returns one image per noise tensor, the gif
    holds exactly the [M] images sampled, in their order, at 100
    milliseconds each, and [images] is left as the loop built it. *)
Theorem circular_walk_gif_frames g noise_shape prompt_encoding steps
    batch_size :
  (forall encoded_text diffusion_noise,
      length diffusion_noise = Z.to_nat batch_size ->
      length (generate_image encoded_text batch_size 25 diffusion_noise)
      = Z.to_nat batch_size) ->
  (0 < batch_size <= steps)%Z ->
  exists s gif,
    circular_walk generate_image fromarray standard_normal entropy g
                  noise_shape prompt_encoding steps batch_size = inr s
    /\ circular_walk_gif generate_image fromarray standard_normal entropy g
                         noise_shape prompt_encoding steps batch_size
       = inr (images s, gif)
    /\ gif_frames gif = images s
    /\ gif_duration gif = 100%Z
    /\ length (gif_frames gif)
       = (Z.to_nat batch_size * Z.to_nat (steps / batch_size))%nat.
Proof.
  intros Hgen H. unfold circular_walk_gif, circular_walk, tf_random_normal.
  rewrite circular_loop_run by lia. cbn [Py.bind].
  set (s := {| batches := _; images := _ |}).
  assert (Hlen : length (images s)
                 = (Z.to_nat batch_size
                    * Z.to_nat (steps / batch_size))%nat).
  { subst s. cbn [images].
    rewrite <- (flat_map_of_map
                  (fun c => map fromarray
                              (generate_image [prompt_encoding]
                                              batch_size 25 c))).
    rewrite sampled_images_count with (b := Z.to_nat batch_size).
    - now rewrite length_map, length_seq.
    - intros c Hc. apply in_map_iff in Hc as [i [<- _]].
      apply Hgen, chunk_length. }
  assert (Hne : images s <> []).
  { apply nonempty_of_length. rewrite Hlen.
    now apply full_batches_positive. }
  rewrite (@export_images_saved _ false _ Hne).
  exists s. eexists. split; [reflexivity|]. split; [reflexivity|].
  cbn [gif_frames gif_duration]. repeat split. exact Hlen.
Qed.

End WalkToGif.



(** Eight steps in batches of four, around the circle. *)
Lemma circular_walk_gif_frames_witness :
  (forall encoded_text diffusion_noise,
      length diffusion_noise = Z.to_nat 4 ->
      length (echo_noise encoded_text 4 25 diffusion_noise) = Z.to_nat 4)
  /\ (0 < 4 <= 8)%Z
  /\ exists s gif,
      circular_walk echo_noise as_is ones_kernel zeros_run fresh_rng
                    [1%Z] [] 8 4 = inr s
      /\ circular_walk_gif echo_noise as_is ones_kernel zeros_run fresh_rng
                           [1%Z] [] 8 4
         = inr (images s, gif)
      /\ gif_frames gif = images s
      /\ gif_duration gif = 100%Z
      /\ length (gif_frames gif)
         = (Z.to_nat 4 * Z.to_nat (8 / 4))%nat.
Proof.
  split; [intros; assumption|]. split; [lia|].
  apply (@circular_walk_gif_frames tensor tensor echo_noise as_is
           ones_kernel zeros_run fresh_rng [1%Z] [] 8%Z 4%Z);
    [intros; assumption|lia].
Defined.

(** ** Where the random walk ends *)

Lemma walk_batches_heap_length {Img Frame}
    (generate_image : list tensor -> Z -> Z -> list tensor -> list Img)
    (fromarray : Img -> Frame) standard_normal entropy
    batch_size step_size seed noise (l : list Z) :
  forall w : walker Frame,
    (encoding w < length (heap w))%nat ->
    length (heap (fold_left
                    (fun w _ => walk_batch generate_image fromarray
                                           standard_normal entropy
                                           batch_size step_size seed noise w)
                    l w))
    = (length (heap w) + Z.to_nat batch_size * length l)%nat.
Proof.
  induction l as [|x l IH]; intros w Henc; cbn [fold_left length]; [lia|].
  pose proof (@walk_batch_spec Img Frame generate_image fromarray
                standard_normal entropy step_size seed noise
                batch_size w Henc) as H.
  cbn zeta in H. destruct H as ([news [Hh Hn]] & He & _).
  rewrite IH by exact He. rewrite Hh, length_app, Hn. lia.
Qed.

Lemma t_add_zero_delta (v d : tensor) :
  (length v <= length d)%nat -> t_add v (t_mul d 0) = v.
Proof.
  unfold t_add, t_mul, zip_with. revert d.
  induction v as [|a v IH]; intros [|b d] H; cbn in H; try lia;
    [reflexivity|reflexivity|].
  cbn [map combine fst snd]. rewrite IH by lia. f_equal. lra.
Qed.

Lemma walk_from_constant delta v c k :
  (forall c', t_add v (delta c') = v) -> walk_from delta v c k = repeat v k.
Proof.
  intros H. revert c. induction k as [|k IH]; intros c; [reflexivity|].
  cbn [walk_from repeat]. now rewrite H, IH.
Qed.

Section RandomWalkEnd.

Variables Img Frame : Type.
Variable generate_image : list tensor -> Z -> Z -> list tensor -> list Img.
Variable fromarray : Img -> Frame.
Variable standard_normal : Z -> nat -> list Z -> tensor.
Variable entropy : nat -> list Z -> tensor.

(** X12. When the random walk ends, one delta has been drawn from the
    seeded kernel, and one tensor object made, for every vector sampled; no
    unseeded draw has been made; and [encoding] is bound to the position one
    step past the last vector sampled: the last delta moves the walk to a
    position that is never shown. *)
Theorem random_walk_final_state (walk_steps batch_size : Z) (step_size : R)
    (seed : Z) (noise : tensor) (w : walker Frame) :
  batch_size <> 0%Z -> (encoding w < length (heap w))%nat ->
  exists w',
    random_walk_loop generate_image fromarray standard_normal entropy
                     walk_steps batch_size step_size seed noise w = inr w'
    /\ length (heap w')
       = (length (heap w)
          + Z.to_nat batch_size * Z.to_nat (walk_steps / batch_size))%nat
    /\ seeded_calls (rng w')
       = (seeded_calls (rng w)
          + Z.to_nat batch_size * Z.to_nat (walk_steps / batch_size))%nat
    /\ unseeded_calls (rng w') = unseeded_calls (rng w)
    /\ (encoding w' < length (heap w'))%nat
    /\ deref (heap w') (encoding w')
       = position (random_deltas standard_normal step_size seed)
                  (deref (heap w) (encoding w)) (seeded_calls (rng w))
                  (Z.to_nat batch_size
                   * Z.to_nat (walk_steps / batch_size)).
Proof.
  intros Hb Henc. unfold random_walk_loop, Py.floordiv.
  destruct (Z.eqb_spec batch_size 0) as [E|_]; [contradiction|].
  cbn [Py.bind Py.ret]. eexists. split; [reflexivity|].
  assert (Hlen : length (Py.range (walk_steps / batch_size))
                 = Z.to_nat (walk_steps / batch_size))
    by (unfold Py.range; now rewrite length_map, length_seq).
  pose proof (@walk_batches_spec Img Frame generate_image fromarray
                standard_normal entropy step_size seed noise batch_size
                (Py.range (walk_steps / batch_size)) w Henc) as H.
  cbn zeta in H. destruct H as (_ & He & Hd & Hr & _).
  pose proof (walk_batches_heap_length generate_image fromarray
                standard_normal entropy batch_size step_size seed noise
                (Py.range (walk_steps / batch_size)) w Henc) as Hheap.
  rewrite Hlen in *. rewrite Hr. cbn [seeded_calls unseeded_calls].
  repeat split; assumption.
Qed.

(** X13. With a step size of zero the random walk stands still: every
    vector handed to the model is the start (the deltas being at least as
    long as the start, as they are when the shapes agree). *)
Theorem random_walk_zero_step (walk_steps batch_size : Z) (seed : Z)
    (noise : tensor) (w : walker Frame) :
  batch_size <> 0%Z -> (encoding w < length (heap w))%nat ->
  sampled w = no_images Frame ->
  (forall c, (length (deref (heap w) (encoding w))
              <= length (standard_normal seed c [77%Z; 768%Z]))%nat) ->
  exists w',
    random_walk_loop generate_image fromarray standard_normal entropy
                     walk_steps batch_size 0 seed noise w = inr w'
    /\ concat (batches (sampled w'))
       = repeat (deref (heap w) (encoding w))
                (Z.to_nat batch_size * Z.to_nat (walk_steps / batch_size)).
Proof.
  intros Hb Henc Hw Hshape.
  pose proof (@random_walk_loop_run Img Frame generate_image fromarray
                standard_normal entropy 0%R seed noise
                walk_steps batch_size w Hb Henc Hw) as H.
  cbn zeta in H. destruct H as (w' & Hrun & _ & _ & _ & Hc & _).
  exists w'. split; [exact Hrun|]. rewrite Hc.
  apply walk_from_constant. intros c.
  unfold random_deltas. apply t_add_zero_delta.
  unfold t_mul. specialize (Hshape c). exact Hshape.
Qed.

End RandomWalkEnd.

(** Four steps in batches of two from the tensor [[0]]. *)
Lemma random_walk_final_state_witness :
  2%Z <> 0%Z
  /\ (encoding (walker_at tensor [0%R])
      < length (heap (walker_at tensor [0%R])))%nat
  /\ exists w',
      random_walk_loop echo_encodings as_is ones_kernel zeros_run
                       4 2 1 12345 [] (walker_at tensor [0%R]) = inr w'
      /\ length (heap w')
         = (length (heap (walker_at tensor [0%R]))
            + Z.to_nat 2 * Z.to_nat (4 / 2))%nat
      /\ seeded_calls (rng w')
         = (seeded_calls (rng (walker_at tensor [0%R]))
            + Z.to_nat 2 * Z.to_nat (4 / 2))%nat
      /\ unseeded_calls (rng w')
         = unseeded_calls (rng (walker_at tensor [0%R]))
      /\ (encoding w' < length (heap w'))%nat
      /\ deref (heap w') (encoding w')
         = position (random_deltas ones_kernel 1 12345)
                    (deref (heap (walker_at tensor [0%R]))
                           (encoding (walker_at tensor [0%R])))
                    (seeded_calls (rng (walker_at tensor [0%R])))
                    (Z.to_nat 2 * Z.to_nat (4 / 2)).
Proof.
  split; [lia|]. split; [cbn; lia|].
  apply (@random_walk_final_state tensor tensor echo_encodings as_is
           ones_kernel zeros_run 4%Z 2%Z 1%R 12345%Z []
           (walker_at tensor [0%R])); [lia|cbn; lia].
Defined.

(** Four steps of size zero in batches of two from the tensor [[0]]. *)
Lemma random_walk_zero_step_witness :
  2%Z <> 0%Z
  /\ (encoding (walker_at tensor [0%R])
      < length (heap (walker_at tensor [0%R])))%nat
  /\ sampled (walker_at tensor [0%R]) = no_images tensor
  /\ (forall c,
        (length (deref (heap (walker_at tensor [0%R]))
                       (encoding (walker_at tensor [0%R])))
         <= length (ones_kernel 12345 c [77%Z; 768%Z]))%nat)
  /\ exists w',
      random_walk_loop echo_encodings as_is ones_kernel zeros_run
                       4 2 0 12345 [] (walker_at tensor [0%R]) = inr w'
      /\ concat (batches (sampled w'))
         = repeat (deref (heap (walker_at tensor [0%R]))
                         (encoding (walker_at tensor [0%R])))
                  (Z.to_nat 2 * Z.to_nat (4 / 2)).
Proof.
  split; [lia|]. split; [cbn; lia|]. split; [reflexivity|].
  split; [intros; cbn; lia|].
  apply (@random_walk_zero_step tensor tensor echo_encodings as_is
           ones_kernel zeros_run 4%Z 2%Z 12345%Z []
           (walker_at tensor [0%R]));
    [lia|cbn; lia|reflexivity|intros; cbn; lia].
Defined.

(** ** Where the interpolations end *)

Section InterpolationEnds.

Variables Img Frame : Type.
Variable generate_image : list tensor -> Z -> Z -> list tensor -> list Img.
Variable fromarray : Img -> Frame.

(** X15. [tf.linspace] between two encodings of one shape, for at least two
    steps, gives a walk of that many vectors from [encoding_1] to
    [encoding_2], both included, the vector of index [i] at parameter
    [i / (steps - 1)]. *)
Theorem linspace_walk_ends encoding_1 encoding_2 steps :
  (2 <= steps)%Z -> length encoding_1 = length encoding_2 ->
  exists walk,
    interpolated_encodings encoding_1 encoding_2 steps = inr walk
    /\ length walk = Z.to_nat steps
    /\ hd_error walk = Some encoding_1
    /\ last walk [] = encoding_2
    /\ forall i, (i < Z.to_nat steps)%nat ->
         nth_error walk i
         = Some (lerp encoding_1 encoding_2
                      (INR i / INR (Z.to_nat steps - 1))).
Proof.
  intros Hs Hlen.
  destruct (interpolated_encodings_spaced encoding_1 encoding_2 Hs Hlen)
    as (walk & Hrun & Hl & H0 & Hlast & Hall).
  exists walk. split; [exact Hrun|]. split; [exact Hl|].
  split; [|split; [|exact Hall]].
  - destruct walk; [discriminate|exact H0].
  - destruct (exists_last (l := walk)) as (front & z & ->).
    { intros ->. cbn in Hl. lia. }
    rewrite last_last. rewrite length_app in Hl. cbn [length] in Hl.
    replace (Z.to_nat steps - 1)%nat with (length front) in Hlast by lia.
    rewrite nth_error_app2, Nat.sub_diag in Hlast by lia.
    now injection Hlast.
Qed.


End InterpolationEnds.

(** X17. The offsets of a batch are whole numbers, the indices of its
    vectors: batch [i] of size [b] has the offsets [b*i], [b*i + 1], ...,
    [b*i + b - 1], for every positive batch size, 1 included.  So the
    batches follow one another with no index left out and none repeated. *)
Theorem batch_offsets_are_indices (batch_size : Z) (i : nat) :
  (0 < batch_size)%Z ->
  exists offsets,
    step_offsets batch_size (Z.of_nat i) = inr offsets
    /\ length offsets = Z.to_nat batch_size
    /\ forall k, (k < Z.to_nat batch_size)%nat ->
         nth_error offsets k
         = Some (IZR (batch_size * Z.of_nat i + Z.of_nat k)).
Proof.
  intros Hb. rewrite (step_offsets_eq i Hb).
  eexists. split; [reflexivity|].
  split; [now rewrite length_map, length_seq|].
  intros k Hk.
  rewrite (nth_error_map_seq
             (fun k => INR (Z.to_nat batch_size * i + k))) by exact Hk.
  rewrite INR_IZR_INZ. do 2 f_equal. lia.
Qed.

(** Five steps of [tf.linspace] between [[0]] and [[1]]. *)
Lemma linspace_walk_ends_witness :
  (2 <= 5)%Z /\ length [0%R] = length [1%R]
  /\ exists walk,
      interpolated_encodings [0%R] [1%R] 5 = inr walk
      /\ length walk = Z.to_nat 5
      /\ hd_error walk = Some [0%R]
      /\ last walk [] = [1%R]
      /\ forall i, (i < Z.to_nat 5)%nat ->
           nth_error walk i
           = Some (lerp [0%R] [1%R] (INR i / INR (Z.to_nat 5 - 1))).
Proof.
  split; [lia|]. split; [reflexivity|].
  apply (@linspace_walk_ends [0%R] [1%R] 5%Z); [lia|reflexivity].
Defined.


(** The offsets of the third batch of sixteen. *)
Lemma batch_offsets_are_indices_witness :
  (0 < 16)%Z
  /\ exists offsets,
      step_offsets 16 (Z.of_nat 2) = inr offsets
      /\ length offsets = Z.to_nat 16
      /\ forall k, (k < Z.to_nat 16)%nat ->
           nth_error offsets k
           = Some (IZR (16 * Z.of_nat 2 + Z.of_nat k)).
Proof.
  split; [lia|].
  apply (@batch_offsets_are_indices 16%Z 2%nat). lia.
Defined.

(** ** Around the circle *)


Section AroundTheCircle.

Variables Img Frame : Type.
Variable generate_image : list tensor -> Z -> Z -> list tensor -> list Img.
Variable fromarray : Img -> Frame.


End AroundTheCircle.


(** ** The offsets of the walks *)

(** X14. Every offset the loops multiply a step by is a whole number from 0
    to [steps - 1]: in each batch the loop visits, no offset reaches
    [steps].  So the fine-grained interpolation, whose step is the
    [steps]-th part of the way, is never evaluated at the far end of the
    way, and the circular walk never at the full turn. *)
Theorem offsets_below_steps (steps batch_size step_index : Z) :
  (0 < batch_size)%Z -> (0 <= steps)%Z ->
  In step_index (Py.range (steps / batch_size)) ->
  exists offsets,
    step_offsets batch_size step_index = inr offsets
    /\ Forall (fun o => exists n : Z, o = IZR n /\ (0 <= n <= steps - 1)%Z)
              offsets.
Proof.
  intros Hb Hs Hin. unfold Py.range in Hin.
  apply in_map_iff in Hin as [i [<- Hi]]. apply in_seq in Hi.
  rewrite (step_offsets_eq i Hb). eexists. split; [reflexivity|].
  apply Forall_forall. intros o Ho.
  apply in_map_iff in Ho as [k [<- Hk]]. apply in_seq in Hk.
  exists (Z.of_nat (Z.to_nat batch_size * i + k)).
  split; [apply INR_IZR_INZ|].
  pose proof (full_batches_count Hb Hs) as Hcount.
  pose proof (Z.mod_pos_bound steps batch_size Hb).
  assert (Z.to_nat batch_size * i + k
          < Z.to_nat batch_size * Z.to_nat (steps / batch_size))%nat by nia.
  lia.
Qed.

(** The second batch of ten steps in batches of four. *)
Lemma offsets_below_steps_witness :
  (0 < 4)%Z /\ (0 <= 10)%Z /\ In 1%Z (Py.range (10 / 4))
  /\ exists offsets,
      step_offsets 4 1 = inr offsets
      /\ Forall (fun o => exists n : Z, o = IZR n /\ (0 <= n <= 10 - 1)%Z)
                offsets.
Proof.
  split; [lia|]. split; [lia|]. split; [right; left; reflexivity|].
  apply (@offsets_below_steps 10%Z 4%Z 1%Z);
    [lia|lia|right; left; reflexivity].
Defined.
